(** * PoET: the GGPK archive reader (ggpk.py) and the directory diff (diff.py)

    A shallow embedding of the two Python modules.  Python objects that the
    code mutates (the open file behind an archive, the output sinks of the
    diff) are threaded explicitly; Python exceptions are an error result.

    Environment assumptions, stated once:
    - CPython 3 (3.8 or later, 64 bits) semantics of [open(.., 'rb')] file
      objects, [struct], the ['utf16'] codec, [os.path] and [os.walk] on a
      POSIX system;
    - a read never exhausts memory (no [MemoryError]); a length that no
      byte string can have is refused by the library itself, with
      [OverflowError], and that refusal is part of the model;
    - a path is a string of characters up to U+00FF, which the encoding of
      the file system (UTF-8) accepts: the only path that Python refuses
      before it asks the system is one that holds a NUL character;
    - the byte order of the host and the largest file offset the operating
      system accepts are parameters of the development. *)

From Stdlib Require Import String Ascii Strings.Byte.
From Stdlib Require Import ZArith List Lia Bool.
From Equations Require Import Equations.
From Equations.Prop Require Import Logic.
Import ListNotations.
Local Open Scope Z_scope.

(** ** Python exceptions and results *)

(** The exception classes the two modules can raise.  [StructError] is
    [struct.error]; the last three are subclasses of [OSError]. *)
Inductive exn : Type :=
| StructError
| ValueError
| OverflowError
| UnicodeDecodeError
| KeyError
| AttributeError
| TypeError
| OSError
| FileNotFoundError
| IsADirectoryError
| NotADirectoryError.


Inductive result (A : Type) : Type :=
| Ok (a : A)
| Raise (e : exn).
Arguments Ok {A} a.
Arguments Raise {A} e.

(** A call returned normally. *)
Definition returns {A : Type} (r : result A) : Prop := exists a, r = Ok a.
(** A call ended with an exception. *)
Definition raises {A : Type} (r : result A) : Prop := exists e, r = Raise e.

(** ** Bytes *)

Definition byte_val (b : byte) : Z := Z.of_N (Byte.to_N b).

Definition byte_of_Z (z : Z) : byte :=
  match Byte.of_N (Z.to_N (z mod 256)) with
  | Some b => b
  | None => x00
  end.

Definition bytes_eqb (a b : list byte) : bool :=
  if list_eq_dec Byte.byte_eq_dec a b then true else false.

(** [buf[off : off+n]] for [0 <= off], [0 <= n]. *)
Definition slice (buf : list byte) (off n : Z) : list byte :=
  firstn (Z.to_nat n) (skipn (Z.to_nat off) buf).

(** Little-endian unsigned integer held by a byte string. *)
Fixpoint le_uint (bs : list byte) : Z :=
  match bs with
  | [] => 0
  | b :: tl => byte_val b + 256 * le_uint tl
  end.

(** Little-endian two's complement 32-bit integer ([struct] code [i]). *)
Definition le_int32 (bs : list byte) : Z :=
  let u := le_uint bs in
  if u <? 2 ^ 31 then u else u - 2 ^ 32.

(** The [n] low bytes of [z], little-endian: used to write archives down. *)
Fixpoint le_bytes (n : nat) (z : Z) : list byte :=
  match n with
  | O => []
  | S n' => byte_of_Z z :: le_bytes n' (z / 256)
  end.

(** ** Binary file objects *)

(** The state of an object returned by [open(name, 'rb')]: the bytes of the
    file, the read position (never negative) and whether [close] has been
    called.  One such object is shared by an archive and all its child
    pointers. *)
Record fileobj : Type := mkfile {
  content : list byte;
  pos : nat;
  closed : bool
}.

Definition set_pos (f : fileobj) (p : nat) : fileobj :=
  mkfile (content f) p (closed f).

(** Bytes between the position and the end of the file. *)
Definition unread (f : fileobj) : list byte := skipn (pos f) (content f).

(** Computations on the shared file object: the object survives an
    exception, in the state the failing call left it in. *)
Definition M (A : Type) : Type := fileobj -> result A * fileobj.

Definition ret {A : Type} (a : A) : M A := fun f => (Ok a, f).

Definition throw {A : Type} (e : exn) : M A := fun f => (Raise e, f).

Definition bind {A B : Type} (c : M A) (k : A -> M B) : M B :=
  fun f =>
    match c f with
    | (Ok a, f') => k a f'
    | (Raise e, f') => (Raise e, f')
    end.

Notation "x <- c ;; k" := (bind c (fun x => k))
  (at level 61, c at next level, right associativity).
Notation "c ;;; k" := (bind c (fun _ => k))
  (at level 61, right associativity).

(** Whether a Python int converts to the C type of offsets and sizes. *)
Definition fits_ssize (z : Z) : bool := (- 2 ^ 63 <=? z) && (z <? 2 ^ 63).

(** [f.read(n)]: up to [n] bytes from the position, everything up to the
    end of the file for [n = -1].  The result is allocated with room for
    [n] bytes before anything is read: a byte string has at most
    [2^63 - 34] bytes, a longer one is an [OverflowError]. *)
Definition read (n : Z) : M (list byte) := fun f =>
  if negb (fits_ssize n) then (Raise OverflowError, f)
  else if n <? -1 then (Raise ValueError, f)
  else if closed f then (Raise ValueError, f)
  else if 2 ^ 63 - 33 <=? n then (Raise OverflowError, f)
  else
    let buf := if n =? -1 then unread f else firstn (Z.to_nat n) (unread f) in
    (Ok buf, set_pos f (pos f + length buf)%nat).

(** [f.tell()]. *)
Definition tell : M Z := fun f =>
  if closed f then (Raise ValueError, f) else (Ok (Z.of_nat (pos f)), f).

(** [f.close()]: closing a closed file is allowed and does nothing more. *)
Definition close : M unit := fun f =>
  (Ok tt, mkfile (content f) (pos f) true).

(** ** The file system *)

(** A tree of regular files and directories; the entries of a directory
    are kept in the order in which the system lists them.  [st_size] is the
    size the system reports for the directory itself. *)
#[warnings="-register-all"]
Inductive node : Type :=
| Reg (data : list byte)
| Folder (st_size : Z) (entries : list (string * node)).

(** The outcome of resolving a path: the node found, the errors [ENOENT]
    and [ENOTDIR] of the system, or the refusal of a path that holds a NUL
    character, which Python raises as [ValueError] before it asks the
    system. *)
Inductive lookup_result : Type :=
| Found (n : node)
| ENOENT
| ENOTDIR
| EmbeddedNul.

Fixpoint has_nul (s : string) : bool :=
  match s with
  | EmptyString => false
  | String c tl => Ascii.eqb c zero || has_nul tl
  end.

(** [s.split('/')]. *)
Fixpoint split_slash (s : string) : list string :=
  match s with
  | EmptyString => [EmptyString]
  | String c tl =>
      if Ascii.eqb c "/" then EmptyString :: split_slash tl
      else match split_slash tl with
           | hd :: more => String c hd :: more
           | [] => [String c EmptyString]
           end
  end.

Fixpoint find_entry (name : string) (es : list (string * node)) : option node :=
  match es with
  | [] => None
  | (k, n) :: tl => if String.eqb k name then Some n else find_entry name tl
  end.

(** Path resolution, one component at a time; [above] holds the
    directories passed on the way down, nearest first. *)
Fixpoint walk_path (comps : list string) (above : list node) (cur : node)
  : lookup_result :=
  match comps with
  | [] => Found cur
  | c :: tl =>
      match cur with
      | Reg _ => ENOTDIR
      | Folder _ es =>
          if String.eqb c "" || String.eqb c "." then walk_path tl above cur
          else if String.eqb c ".." then
            match above with
            | [] => walk_path tl [] cur
            | up :: upper => walk_path tl upper up
            end
          else
            match find_entry c es with
            | None => ENOENT
            | Some n => walk_path tl (cur :: above) n
            end
      end
  end.

(** Every path is resolved from the root of the tree, which is also the
    working directory. *)
Definition lookup (fsys : node) (path : string) : lookup_result :=
  if has_nul path then EmbeddedNul
  else if String.eqb path "" then ENOENT
  else walk_path (split_slash path) [] fsys.

(** [os.path.exists(path)]: [False] for every path that [os.stat]
    refuses, with [OSError] or with [ValueError]. *)
Definition os_path_exists (fsys : node) (path : string) : bool :=
  match lookup fsys path with
  | Found _ => true
  | _ => false
  end.

Definition os_path_getsize (fsys : node) (path : string) : result Z :=
  match lookup fsys path with
  | Found (Reg data) => Ok (Z.of_nat (length data))
  | Found (Folder size _) => Ok size
  | ENOENT => Raise FileNotFoundError
  | ENOTDIR => Raise NotADirectoryError
  | EmbeddedNul => Raise ValueError
  end.

(** [open(path, 'rb')]. *)
Definition open_rb (fsys : node) (path : string) : result fileobj :=
  match lookup fsys path with
  | Found (Reg data) => Ok (mkfile data 0 false)
  | Found (Folder _ _) => Raise IsADirectoryError
  | ENOENT => Raise FileNotFoundError
  | ENOTDIR => Raise NotADirectoryError
  | EmbeddedNul => Raise ValueError
  end.

Definition endswith_slash (s : string) : bool :=
  match String.length s with
  | O => false
  | S n => match String.get n s with
           | Some c => Ascii.eqb c "/"
           | None => false
           end
  end.

Definition startswith_slash (s : string) : bool :=
  match s with
  | String c _ => Ascii.eqb c "/"
  | EmptyString => false
  end.

(** [os.path.join(a, b)] of [posixpath]. *)
Definition os_path_join (a b : string) : string :=
  if startswith_slash b then b
  else if String.eqb a "" || endswith_slash a then (a ++ b)%string
  else (a ++ "/" ++ b)%string.

Definition is_folder (n : node) : bool :=
  match n with
  | Folder _ _ => true
  | Reg _ => false
  end.

Definition dirnames (es : list (string * node)) : list string :=
  map fst (filter (fun e => is_folder (snd e)) es).

Definition filenames (es : list (string * node)) : list string :=
  map fst (filter (fun e => negb (is_folder (snd e))) es).

(** The triples [os.walk] yields below a directory [n] named [root],
    top-down. *)
Fixpoint walk_node (root : string) (n : node)
  : list (string * list string * list string) :=
  match n with
  | Reg _ => []
  | Folder _ es =>
      (root, dirnames es, filenames es) ::
      (fix subdirs (l : list (string * node)) :=
         match l with
         | [] => []
         | (name, child) :: tl =>
             match child with
             | Reg _ => subdirs tl
             | Folder _ _ =>
                 walk_node (os_path_join root name) child ++ subdirs tl
             end
         end) es
  end.

(** [os.walk(top)], as the first step of the generator finds it: nothing
    when [top] is not a directory, for the [OSError] of listing it is
    dropped; a [ValueError] when [top] holds a NUL character, for that
    error is not. *)
Definition os_walk (fsys : node) (top : string)
  : result (list (string * list string * list string)) :=
  match lookup fsys top with
  | Found n => Ok (walk_node top n)
  | ENOENT | ENOTDIR => Ok []
  | EmbeddedNul => Raise ValueError
  end.

(** [s[base:]]. *)
Definition str_from (s : string) (base : nat) : string :=
  substring base (String.length s - base) s.

(** ** ggpk.py *)

(** *** Text *)

(** A Python [str]: its code points. *)
Definition pystr : Type := list Z.

Inductive byteorder : Type := Little | Big.

(** The 16-bit code unit made of two consecutive bytes. *)
Definition unit16 (bo : byteorder) (b0 b1 : byte) : Z :=
  match bo with
  | Little => byte_val b0 + 256 * byte_val b1
  | Big => 256 * byte_val b0 + byte_val b1
  end.

(** Code units of a byte string; [None] when a byte is left over. *)
Fixpoint code_units (bo : byteorder) (bs : list byte) : option (list Z) :=
  match bs with
  | [] => Some []
  | [_] => None
  | b0 :: b1 :: tl => option_map (cons (unit16 bo b0 b1)) (code_units bo tl)
  end.

Definition is_high_surrogate (u : Z) : bool := (0xD800 <=? u) && (u <=? 0xDBFF).
Definition is_low_surrogate (u : Z) : bool := (0xDC00 <=? u) && (u <=? 0xDFFF).

(** Code points of a sequence of code units; [None] on a surrogate that is
    not part of a well-formed pair. *)
Fixpoint code_points (us : list Z) : option pystr :=
  match us with
  | [] => Some []
  | u :: tl =>
      if is_high_surrogate u then
        match tl with
        | lo :: tl' =>
            if is_low_surrogate lo then
              option_map
                (cons (0x10000 + (u - 0xD800) * 0x400 + (lo - 0xDC00)))
                (code_points tl')
            else None
        | [] => None
        end
      else if is_low_surrogate u then None
      else option_map (cons u) (code_points tl)
  end.

Definition decode_units (bo : byteorder) (bs : list byte) : result pystr :=
  match code_units bo bs with
  | None => Raise UnicodeDecodeError
  | Some us =>
      match code_points us with
      | None => Raise UnicodeDecodeError
      | Some s => Ok s
      end
  end.

(** [bs.decode('utf16')], strict: a leading byte order mark selects the
    byte order and is dropped, otherwise the order is the host's. *)
Definition decode_utf16 (host : byteorder) (bs : list byte) : result pystr :=
  match bs with
  | xff :: xfe :: tl => decode_units Little tl
  | xfe :: xff :: tl => decode_units Big tl
  | _ => decode_units host bs
  end.

Fixpoint lstrip_nul (s : pystr) : pystr :=
  match s with
  | [] => []
  | c :: tl => if c =? 0 then lstrip_nul tl else s
  end.

(** [s.rstrip('\x00')]. *)
Definition rstrip_nul (s : pystr) : pystr := rev (lstrip_nul (rev s)).

(** *** Records of the archive *)

(** [ChildPointer]: the offset of a child; the file object it reads from is
    the shared one all computations run on. *)
Record ChildPointer : Type := mkChildPointer { cp_where : Z }.

(** What [_read_entry] returns: a [DirectoryEntry], a [FileEntry] with its
    [where] pair (offset, size), or Python's [None]. *)
Inductive entry : Type :=
| DirectoryEntry (name : pystr) (children : list ChildPointer)
| FileEntry (name : pystr) (where_ : Z * Z).

Record FileHeader : Type := mkFileHeader {
  version : Z;
  identifier : list byte;
  rootoffs : Z
}.

(** The attributes of a [File] once [__init__] has run. *)
Record File : Type := mkFile {
  header : FileHeader;
  root_dir : option entry
}.

Definition tag_PDIR : list byte := ["P"; "D"; "I"; "R"]%byte.
Definition tag_FILE : list byte := ["F"; "I"; "L"; "E"]%byte.
Definition tag_FREE : list byte := ["F"; "R"; "E"; "E"]%byte.

Section Reader.

(** Byte order of the host: the ['utf16'] codec falls back on it when the
    text carries no byte order mark. *)
Variable host : byteorder.

(** Largest offset the operating system accepts in a seek on the file. *)
Variable max_offset : Z.

(** The position check shared by absolute and relative seeks. *)
Definition seek_to (target : Z) : M Z := fun f =>
  if (target <? 0) || (max_offset <? target) then (Raise OSError, f)
  else (Ok target, set_pos f (Z.to_nat target)).

(** [f.seek(off)]. *)
Definition seek (off : Z) : M Z := fun f =>
  if closed f then (Raise ValueError, f)
  else if negb (fits_ssize off) then (Raise ValueError, f)
  else seek_to off f.

(** [f.seek(delta, 1)]. *)
Definition seek_cur (delta : Z) : M Z := fun f =>
  if closed f then (Raise ValueError, f)
  else if negb (fits_ssize delta) then (Raise ValueError, f)
  else seek_to (Z.of_nat (pos f) + delta) f.

Definition _decode_str (s : list byte) : result pystr := decode_utf16 host s.

(** [_read_struct(fd, s)] for a struct [s] of [size] bytes whose fields
    [unpack] extracts: [unpack_from] refuses a shorter buffer. *)
Definition _read_struct {A : Type} (size : Z) (unpack : list byte -> A) : M A :=
  buf <- read size ;;
  if Z.of_nat (length buf) <? size then throw StructError
  else ret (unpack buf).

(** [struct.Struct('<I4sIQQ')]. *)
Definition FileHeader_struct_size : Z := 28.
Definition FileHeader_unpack (buf : list byte) : FileHeader :=
  mkFileHeader (le_uint (slice buf 0 4)) (slice buf 4 4) (le_uint (slice buf 12 8)).

Definition FileHeader_read : M FileHeader :=
  _read_struct FileHeader_struct_size FileHeader_unpack.

(** [struct.Struct('<iI')]: name length, child count. *)
Definition _pdir_info_struct_size : Z := 8.
Definition _pdir_info_unpack (buf : list byte) : Z * Z :=
  (le_int32 (slice buf 0 4), le_uint (slice buf 4 4)).

(** [struct.Struct('<IQ')]: checksum, child offset. *)
Definition _pdir_child_struct_size : Z := 12.
Definition _pdir_child_unpack (buf : list byte) : Z * Z :=
  (le_uint (slice buf 0 4), le_uint (slice buf 4 8)).

(** [struct.Struct('<i')]: name length. *)
Definition _file_info_struct_size : Z := 4.
Definition _file_info_unpack (buf : list byte) : Z := le_int32 (slice buf 0 4).

(** [struct.Struct('<I4s')]: offset of the next record, record type. *)
Definition _entry_struct_size : Z := 8.
Definition _entry_unpack (buf : list byte) : Z * list byte :=
  (le_uint (slice buf 0 4), slice buf 4 4).

(** The loop [for n in range(childcount)] of [_read_pdir]. *)
Fixpoint _read_pdir_children (n : nat) (children : list ChildPointer)
  : M (list ChildPointer) :=
  match n with
  | O => ret children
  | S n' =>
      info <- _read_struct _pdir_child_struct_size _pdir_child_unpack ;;
      let childoffs := snd info in
      nextpos <- tell ;;
      seek childoffs ;;;
      let children := children ++ [mkChildPointer childoffs] in
      seek nextpos ;;;
      _read_pdir_children n' children
  end.

Definition _read_pdir : M entry :=
  info <- _read_struct _pdir_info_struct_size _pdir_info_unpack ;;
  let namesize := fst info in
  let childcount := snd info in
  seek_cur 0x20 ;;;
  name <- read (namesize * 2) ;;
  match _decode_str name with
  | Raise e => throw e
  | Ok name =>
      let name := rstrip_nul name in
      children <- _read_pdir_children (Z.to_nat childcount) [] ;;
      ret (DirectoryEntry name children)
  end.

Definition _read_file (nextoffs : Z) : M entry :=
  namesize <- _read_struct _file_info_struct_size _file_info_unpack ;;
  seek_cur 0x20 ;;;
  name <- read (namesize * 2) ;;
  match _decode_str name with
  | Raise e => throw e
  | Ok name =>
      let name := rstrip_nul name in
      offs <- tell ;;
      let size := nextoffs - offs in
      ret (FileEntry name (offs, size))
  end.

(** The result is [None] for a [FREE] record, and also when no branch of
    the [if] chain is taken. *)
Definition _read_entry : M (option entry) :=
  curoffs <- tell ;;
  hd <- _read_struct _entry_struct_size _entry_unpack ;;
  let nextoffs := fst hd in
  let ent_type := snd hd in
  if bytes_eqb ent_type tag_PDIR then
    e <- _read_pdir ;; ret (Some e)
  else if bytes_eqb ent_type tag_FILE then
    e <- _read_file (curoffs + nextoffs) ;; ret (Some e)
  else if bytes_eqb ent_type tag_FREE then
    ret None
  else ret None.

Definition ChildPointer_read (self : ChildPointer) : M (option entry) :=
  seek (cp_where self) ;;;
  _read_entry.

(** [DirectoryEntry.__iter__] is a generator: one step resolves the next
    child, or finds the children exhausted. *)
Definition DirectoryEntry_next (rest : list ChildPointer)
  : M (option (option entry * list ChildPointer)) :=
  match rest with
  | [] => ret None
  | child :: rest' => e <- ChildPointer_read child ;; ret (Some (e, rest'))
  end.

(** [list(iter(d))]: the generator run to its end. *)
Fixpoint DirectoryEntry_iter_from (rest : list ChildPointer)
  : M (list (option entry)) :=
  match rest with
  | [] => ret []
  | child :: rest' =>
      e <- ChildPointer_read child ;;
      es <- DirectoryEntry_iter_from rest' ;;
      ret (e :: es)
  end.

(** Only a [DirectoryEntry] defines [__iter__]: [iter] of a [FileEntry]
    is a [TypeError]. *)
Definition DirectoryEntry_iter (self : entry) : M (list (option entry)) :=
  match self with
  | DirectoryEntry _ children => DirectoryEntry_iter_from children
  | FileEntry _ _ => throw TypeError
  end.

Definition File_read_fs (h : FileHeader) : M (option entry) :=
  seek (rootoffs h) ;;;
  _read_entry.

(** [File.__init__(self, filename)]: the file object it opened, when
    [open] succeeded, in the state the constructor left it in, and the
    constructed object or the exception raised.  [File_init_body] is what
    the constructor does once the file is open. *)
Definition File_init_body : M File :=
  h <- FileHeader_read ;;
  root <- File_read_fs h ;;
  ret (mkFile h root).

Definition File_init (fsys : node) (filename : string)
  : result File * option fileobj :=
  match open_rb fsys filename with
  | Raise e => (Raise e, None)
  | Ok fd =>
      let (r, fd') := File_init_body fd in
      (r, Some fd')
  end.

Definition File_root (self : File) : option entry := root_dir self.

Definition File_exit (self : File) : M unit := close.

Definition File_extract (self : File) (file : entry) : M (list byte) :=
  match file with
  | FileEntry _ (offs, size) =>
      seek offs ;;;
      read size
  | DirectoryEntry _ _ => throw AttributeError
  end.

End Reader.

Definition File_enter (self : File) : File := self.

(** [with File(filename) as f: body(f)]: [__enter__] hands the object to
    the body, [__exit__] runs when the body ends, normally or not; nothing
    of it runs when the constructor raises.  (A constructor that returns
    has opened its file: the second case does not arise.) *)
Definition with_File {A : Type} (host : byteorder) (max_offset : Z)
  (fsys : node) (filename : string) (body : File -> M A)
  : result A * option fileobj :=
  match File_init host max_offset fsys filename with
  | (Ok self, Some fd) =>
      let (r, fd1) := body (File_enter self) fd in
      let (_, fd2) := File_exit self fd1 in
      (r, Some fd2)
  | (Ok self, None) => (Raise ValueError, None)
  | (Raise e, fd) => (Raise e, fd)
  end.

(** ** diff.py *)

(** *** File comparison constants *)
Definition Same : Z := 0.
Definition Modified : Z := 1.
Definition New : Z := 2.
Definition Deleted : Z := 3.

(** A [dict] from comparison constants to text, in insertion order. *)
Definition DefaultText : list (Z * string) :=
  [(Same, "SAME"); (Modified, "MODIFIED"); (New, "ADDED"); (Deleted, "DELETED")]%string.

Definition ShorthandText : list (Z * string) :=
  [(Same, "[=]"); (Modified, "[*]"); (New, "[+]"); (Deleted, "[-]")]%string.

(** Sequencing of calls that may raise, where no file object is shared. *)
Definition result_bind {A B : Type} (r : result A) (k : A -> result B) : result B :=
  match r with
  | Ok a => k a
  | Raise e => Raise e
  end.

Notation "x <-? r ;; k" := (result_bind r (fun x => k))
  (at level 61, r at next level, right associativity).

(** The loop of [tree] over the triples of [os.walk]; [base] is set at the
    first triple and stays. *)
Fixpoint tree_loop (child_base : bool) (base : nat)
  (w : list (string * list string * list string)) : list string :=
  match w with
  | [] => []
  | (root, _, files) :: tl =>
      let base := if child_base && Nat.eqb base 0
                  then (String.length root + 1)%nat else base in
      map (fun f => str_from (os_path_join root f) base) files
        ++ tree_loop child_base base tl
  end.

(** [tree(directory, child_base)]: the names the generator yields, or the
    exception its first step raises. *)
Definition tree (fsys : node) (directory : string) (child_base : bool)
  : result (list string) :=
  w <-? os_walk fsys directory ;;
  Ok (tree_loop child_base 0 w).

Definition is_empty (b : list byte) : bool :=
  match b with
  | [] => true
  | _ => false
  end.

(** The [while True] loop of [compare]. *)
Equations? compare_loop (bufsize : Z) (fd1 fd2 : fileobj) : result Z
  by wf (length (unread fd1)) lt :=
  compare_loop bufsize fd1 fd2 with inspect (read bufsize fd1) := {
    | exist _ (Raise e, _) _ := Raise e;
    | exist _ (Ok chunk1, fd1') H1 with read bufsize fd2 := {
        | (Raise e, _) := Raise e;
        | (Ok chunk2, fd2') with inspect (bytes_eqb chunk1 chunk2) := {
            | exist _ false _ := Ok Modified;
            | exist _ true _ with inspect (is_empty chunk1 && is_empty chunk2) := {
                | exist _ true _ := Ok Same;
                | exist _ false H3 := compare_loop bufsize fd1' fd2' } } } }.
Proof.
  unfold read in H1.
  destruct (negb (fits_ssize bufsize)); [discriminate|].
  destruct (bufsize <? -1); [discriminate|].
  destruct (closed fd1); [discriminate|].
  destruct (2 ^ 63 - 33 <=? bufsize); [discriminate|].
  inversion H1; subst; clear H1.
  unfold bytes_eqb in *.
  destruct (list_eq_dec _ _ chunk2); [subst chunk2|discriminate].
  unfold unread, set_pos in *; simpl.
  set (buf := if bufsize =? -1 then _ else _) in *.
  assert (Hb : (0 < length buf)%nat).
  { destruct buf; simpl in *; [discriminate | lia]. }
  assert (Hle : (length buf <= length (skipn (pos fd1) (content fd1)))%nat).
  { subst buf. destruct (bufsize =? -1); [lia | rewrite length_firstn; lia]. }
  rewrite !length_skipn in *. lia.
Qed.

Definition compare (fsys : node) (f1 f2 : string) (bufsize : Z) : result Z :=
  let f1_exists := os_path_exists fsys f1 in
  let f2_exists := os_path_exists fsys f2 in
  if negb f1_exists && f2_exists then Ok New
  else if f1_exists && negb f2_exists then Ok Deleted
  else
    size1 <-? os_path_getsize fsys f1 ;;
    size2 <-? os_path_getsize fsys f2 ;;
    if negb (size1 =? size2) then Ok Modified
    else
      fd1 <-? open_rb fsys f1 ;;
      fd2 <-? open_rb fsys f2 ;;
      compare_loop bufsize fd1 fd2.

(** An argument of [write_summary_item] to write to: [None] is Python's
    [None], otherwise the text written so far. *)
Definition sink : Type := option (list string).

Fixpoint dict_get (d : list (Z * string)) (k : Z) : result string :=
  match d with
  | [] => Raise KeyError
  | (k', v) :: tl => if k' =? k then Ok v else dict_get tl k
  end.

(** [max(values, key=len)]: the first of the longest values. *)
Fixpoint max_by_len (best : string) (vals : list string) : string :=
  match vals with
  | [] => best
  | v :: tl =>
      if (String.length best <? String.length v)%nat then max_by_len v tl
      else max_by_len best tl
  end.

Fixpoint spaces (n : nat) : string :=
  match n with
  | O => EmptyString
  | S n' => String " " (spaces n')
  end.

Definition newline : string := String (ascii_of_nat 10) EmptyString.

Definition write_to (text : string) (f : sink) : sink :=
  match f with
  | Some written => Some (written ++ [text])
  | None => None
  end.

Definition write_summary_item (kind_text : list (Z * string)) (kind : Z)
  (item : string) (files : list sink) : result (list sink) :=
  width <-? match map snd kind_text with
            | [] => Raise ValueError
            | v :: vals => Ok (String.length (max_by_len v vals) + 1)%nat
            end ;;
  label <-? dict_get kind_text kind ;;
  let text := (label ++ spaces (width - String.length label) ++ item ++ newline)%string in
  Ok (map (write_to text) files).

(** The loop of [diff] over the names of the second tree: the sinks as the
    loop leaves them, also when a call raised. *)
Fixpoint diff_loop (fsys : node) (d1 d2 : string) (bufsize : Z)
  (kind_text : list (Z * string)) (t2 : list string) (files : list sink)
  : result unit * list sink :=
  match t2 with
  | [] => (Ok tt, files)
  | f :: tl =>
      match compare fsys (os_path_join d1 f) (os_path_join d2 f) bufsize with
      | Raise e => (Raise e, files)
      | Ok result =>
          if negb (result =? Same) then
            match write_summary_item kind_text result f files with
            | Raise e => (Raise e, files)
            | Ok files' => diff_loop fsys d1 d2 bufsize kind_text tl files'
            end
          else diff_loop fsys d1 d2 bufsize kind_text tl files
      end
  end.

(** [diff(d1, d2, bufsize, fd, kind_text)] writing to [stdout] and [fd].
    The generator [t1] is created and never advanced, so nothing it would
    yield or raise is seen; [t2] raises, if at all, when the loop asks for
    its first name. *)
Definition diff (fsys : node) (d1 d2 : string) (bufsize : Z) (fd : sink)
  (kind_text : list (Z * string)) (stdout : sink) : result unit * list sink :=
  let t1 := tree fsys d1 true in
  let t2 := tree fsys d2 true in
  match t2 with
  | Raise e => (Raise e, [stdout; fd])
  | Ok names => diff_loop fsys d1 d2 bufsize kind_text names [stdout; fd]
  end.

(** ** Archives written down byte by byte *)

Definition zeros (n : nat) : list byte := repeat x00 n.

(** UTF-16, little-endian, of an ASCII text. *)
Fixpoint utf16le (s : string) : list byte :=
  match s with
  | EmptyString => []
  | String c tl => byte_of_Z (Z.of_nat (nat_of_ascii c)) :: x00 :: utf16le tl
  end.

Definition header_bytes (version : Z) (ident : list byte) (root : Z) : list byte :=
  le_bytes 4 version ++ ident ++ le_bytes 4 0 ++ le_bytes 8 root ++ le_bytes 8 0.

Definition entry_header_bytes (nextoffs : Z) (tag : list byte) : list byte :=
  le_bytes 4 nextoffs ++ tag.

Definition child_slot_bytes (offs : Z) : list byte :=
  le_bytes 4 0 ++ le_bytes 8 offs.

(** A record with tag [tag] holding a directory body: the name takes
    [namesize] code units. *)
Definition dir_record_bytes (tag : list byte) (namesize : Z) (name : list byte)
  (children : list Z) : list byte :=
  let body := le_bytes 4 namesize ++ le_bytes 4 (Z.of_nat (length children))
              ++ zeros 32 ++ name ++ flat_map child_slot_bytes children in
  entry_header_bytes (8 + Z.of_nat (length body)) tag ++ body.

(** A [FILE] record whose header announces the next record [nextoffs]
    bytes after its start. *)
Definition file_record_bytes (nextoffs : Z) (namesize : Z) (name data : list byte)
  : list byte :=
  entry_header_bytes nextoffs tag_FILE
    ++ le_bytes 4 namesize ++ zeros 32 ++ name ++ data.

Definition free_record_bytes (padding : nat) : list byte :=
  entry_header_bytes (8 + Z.of_nat padding) tag_FREE ++ zeros padding.

Definition ascii_bytes (s : string) : list byte := list_byte_of_string s.

(** The archive of the scenario: a root directory at offset 28 with the
    children [FILE "x"] (content "hi"), [FREE], [FILE "y"] (content "yo!"). *)
Definition archive_xy : list byte :=
  header_bytes 1 (ascii_bytes "GGPK") 28
    ++ dir_record_bytes tag_PDIR 1 (zeros 2) [114; 164; 180]
    ++ file_record_bytes 50 2 (utf16le "x" ++ zeros 2) (ascii_bytes "hi")
    ++ free_record_bytes 8
    ++ file_record_bytes 51 2 (utf16le "y" ++ zeros 2) (ascii_bytes "yo!").

(** The same bytes with another identifier in the header. *)
Definition archive_bad_magic : list byte :=
  header_bytes 1 (ascii_bytes "XXXX") 28
    ++ skipn 28 archive_xy.

(** A header whose root offset points at the [FILE "x"] record. *)
Definition archive_root_file : list byte :=
  header_bytes 1 (ascii_bytes "GGPK") 114
    ++ skipn 28 archive_xy.

(** A single record with an unknown tag. *)
Definition record_unknown_tag : list byte :=
  entry_header_bytes 16 (ascii_bytes "ABCD") ++ zeros 8.

(** A [FILE] record, with an empty name, whose header says the next record
    starts at the record's own first byte. *)
Definition record_negative_length : list byte :=
  file_record_bytes 0 0 [] (ascii_bytes "data").

Definition fs_of_archive (name : string) (bytes : list byte) : node :=
  Folder 4096 [(name, Reg bytes)].

(** Two extraction directories: [a] is unchanged, [b] is modified, [sub/c]
    is new and [gone] exists in the old directory only. *)
Definition fs_old_new : node :=
  Folder 4096
    [("old", Folder 4096
        [("a", Reg (ascii_bytes "same"));
         ("b", Reg (ascii_bytes "before"));
         ("gone", Reg (ascii_bytes "bye"))]);
     ("new", Folder 4096
        [("a", Reg (ascii_bytes "same"));
         ("b", Reg (ascii_bytes "after!"));
         ("sub", Folder 4096 [("c", Reg (ascii_bytes "fresh"))])])]%string.

(** ** Reading the layout of a record off the bytes *)

Definition u32_at (data : list byte) (p : Z) : Z := le_uint (slice data p 4).
Definition i32_at (data : list byte) (p : Z) : Z := le_int32 (slice data p 4).
Definition u64_at (data : list byte) (p : Z) : Z := le_uint (slice data p 8).

(** The type field of the record that starts at [p]. *)
Definition tag_at (data : list byte) (p : Z) : list byte := slice data (p + 4) 4.

Definition unknown_tag (t : list byte) : Prop :=
  t <> tag_PDIR /\ t <> tag_FILE /\ t <> tag_FREE.

(** The offsets held by [n] consecutive child slots, the first at [q]. *)
Fixpoint child_offsets (data : list byte) (q : Z) (n : nat) : list Z :=
  match n with
  | O => []
  | S n' => u64_at data (q + 4) :: child_offsets data (q + 12) n'
  end.

Definition len (data : list byte) : Z := Z.of_nat (length data).

(** Offsets a seek on the file accepts. *)
Definition seekable (max_offset : Z) (off : Z) : Prop :=
  0 <= off <= max_offset /\ off < 2 ^ 63.

(** Two states of a file object over the same bytes, both open or both
    closed: they differ in the position at most. *)
Definition same_source (f1 f2 : fileobj) : Prop :=
  content f1 = content f2 /\ closed f1 = closed f2.

(** A computation that neither changes the bytes nor closes the file. *)
Definition preserves {A : Type} (c : M A) : Prop :=
  forall f, same_source f (snd (c f)).

(** A [FILE] record starts at [p], lies within reach of the reader and
    carries a name that decodes to [name]. *)
Definition FILE_record_at (host : byteorder) (max_offset : Z)
  (data : list byte) (p : Z) (name : pystr) : Prop :=
  seekable max_offset p /\ p + 12 <= len data /\ p + 44 <= max_offset
  /\ tag_at data p = tag_FILE
  /\ 0 <= i32_at data (p + 8)
  /\ _decode_str host (slice data (p + 44) (2 * i32_at data (p + 8))) = Ok name.

(** Where the reader stands once it has read the name of the [FILE] record
    at [p]. *)
Definition file_data_start (data : list byte) (p : Z) : Z :=
  p + 44 + len (slice data (p + 44) (2 * i32_at data (p + 8))).

(** The first child slot and the number of slots of the [PDIR] record at
    [p]. *)
Definition pdir_slots (data : list byte) (p : Z) : Z :=
  p + 48 + 2 * i32_at data (p + 8).

Definition pdir_childcount (data : list byte) (p : Z) : Z := u32_at data (p + 12).

(** The child offsets of the [PDIR] record at [p], as they lie in the file. *)
Definition pdir_child_offsets (data : list byte) (p : Z) : list Z :=
  child_offsets data (pdir_slots data p) (Z.to_nat (pdir_childcount data p)).

(** A [PDIR] record starts at [p] and lies in the file as a whole, its name
    decodes to [name] and the reader can seek to each child offset. *)
Definition PDIR_record_at (host : byteorder) (max_offset : Z)
  (data : list byte) (p : Z) (name : pystr) : Prop :=
  seekable max_offset p
  /\ tag_at data p = tag_PDIR
  /\ 0 <= i32_at data (p + 8)
  /\ pdir_slots data p + 12 * pdir_childcount data p <= len data
  /\ seekable max_offset (pdir_slots data p + 12 * pdir_childcount data p)
  /\ _decode_str host (slice data (p + 48) (2 * i32_at data (p + 8))) = Ok name
  /\ Forall (seekable max_offset) (pdir_child_offsets data p).

(** A [FREE] record starts at [p]. *)
Definition FREE_record_at (max_offset : Z) (data : list byte) (p : Z) : Prop :=
  seekable max_offset p /\ p + 8 <= len data /\ tag_at data p = tag_FREE.

(** A [FILE] record whose name length field holds -1. *)
Definition record_negative_name : list byte :=
  file_record_bytes 48 (-1) [] (zeros 4).

(** A [PDIR] record with an empty name and two children, the second at
    offset 2^63. *)
Definition record_bad_child : list byte :=
  dir_record_bytes tag_PDIR 0 [] [28; 2 ^ 63].


(** The largest offset of the C type: the limit used in the examples. *)
Definition off_max : Z := 2 ^ 63 - 1.

(** The [name] attribute of an entry. *)
Definition entry_name (e : entry) : pystr :=
  match e with
  | DirectoryEntry name _ => name
  | FileEntry name _ => name
  end.

(** The exception of a seek, on an open file, to an offset that is not
    negative and that the file does not accept. *)
Definition seek_refusal (off : Z) : exn :=
  if 2 ^ 63 <=? off then ValueError else OSError.

(** The column at which [write_summary_item] puts the item: one more than
    the length of the longest text of [kind_text]. *)
Definition kind_width (kind_text : list (Z * string)) : nat :=
  match map snd kind_text with
  | [] => 0
  | v :: vals => String.length (max_by_len v vals) + 1
  end.

(** The paths of the regular files below a directory, relative to it and
    in the order in which [os.walk] meets them: the files of a directory
    first, then its subdirectories one after the other.  [prefix] is the
    relative path of the directory itself, followed by a slash, or empty. *)
Fixpoint rel_files (prefix : string) (n : node) : list string :=
  match n with
  | Reg _ => []
  | Folder _ es =>
      map (fun f => (prefix ++ f)%string) (filenames es) ++
      (fix sub (l : list (string * node)) : list string :=
         match l with
         | [] => []
         | (name, child) :: tl =>
             match child with
             | Reg _ => sub tl
             | Folder _ _ =>
                 rel_files (prefix ++ name ++ "/") child ++ sub tl
             end
         end) es
  end.

Fixpoint contains_slash (s : string) : bool :=
  match s with
  | EmptyString => false
  | String c tl => Ascii.eqb c "/" || contains_slash tl
  end.

(** A name as a directory holds it: not empty and without a slash. *)
Definition plain_name (s : string) : bool :=
  negb (String.eqb s "") && negb (contains_slash s).

(** Every entry below [n] has a plain name. *)
Fixpoint well_named (n : node) : bool :=
  match n with
  | Reg _ => true
  | Folder _ es =>
      (fix all (l : list (string * node)) : bool :=
         match l with
         | [] => true
         | (name, child) :: tl =>
             plain_name name && well_named child && all tl
         end) es
  end.

(** * Properties *)

(** ** Tactics for facts about concrete archives *)

Ltac by_computation :=
  vm_compute; first [reflexivity | discriminate | intro; discriminate].

Ltac split_all := repeat match goal with |- _ /\ _ => split end.

(** A fact about each offset of a list read off concrete bytes: the list
    is computed first, the predicate is never evaluated on a variable. *)
Ltac offsets_facts :=
  unfold seekable;
  match goal with
  | |- Forall ?P ?l =>
      let l' := eval vm_compute in l in change (Forall P l')
  end;
  repeat first
    [ apply Forall_nil
    | apply Forall_cons; [cbv beta; split_all; by_computation|] ].

Ltac record_facts :=
  unfold FILE_record_at, PDIR_record_at, FREE_record_at, seekable, unknown_tag;
  split_all;
  try match goal with
      | |- Forall _ _ => offsets_facts
      | |- _ => by_computation
      end.

(** ** The primitives agree with what CPython computes *)

Example decode_utf16_examples :
  decode_utf16 Little [] = Ok []
  /\ decode_utf16 Little ["a"; x00]%byte = Ok [0x61]
  /\ decode_utf16 Little [xff; xfe]%byte = Ok []
  /\ decode_utf16 Little [xff; xfe; "a"; x00]%byte = Ok [0x61]
  /\ decode_utf16 Little [xfe; xff; x00; "a"]%byte = Ok [0x61]
  /\ decode_utf16 Little ["a"]%byte = Raise UnicodeDecodeError
  /\ decode_utf16 Little [x00; xd8]%byte = Raise UnicodeDecodeError
  /\ decode_utf16 Little [x00; xd8; x00; xdc]%byte = Ok [0x10000]
  /\ decode_utf16 Little [x00; xdc]%byte = Raise UnicodeDecodeError
  /\ decode_utf16 Little [x00; xd8; "a"; x00]%byte = Raise UnicodeDecodeError
  /\ decode_utf16 Little [xff; xfe; xff; xfe]%byte = Ok [0xFEFF]
  /\ decode_utf16 Little [xff; xdb; xff; xdf]%byte = Ok [0x10FFFF]
  /\ decode_utf16 Little ["a"; x00; xff; xfe]%byte = Ok [0x61; 0xFEFF]
  /\ decode_utf16 Big [x00; "a"]%byte = Ok [0x61].
Proof.
  split_all; by_computation.
Qed.

Example rstrip_nul_examples :
  rstrip_nul [0x61; 0; 0] = [0x61]
  /\ rstrip_nul [0; 0x61; 0] = [0; 0x61]
  /\ rstrip_nul [0; 0] = [].
Proof.
  split_all; by_computation.
Qed.

Example os_path_join_examples :
  os_path_join "a" "b" = "a/b"%string
  /\ os_path_join "a/" "b" = "a/b"%string
  /\ os_path_join "" "b" = "b"%string
  /\ os_path_join "a" "/b" = "/b"%string
  /\ os_path_join "a" "" = "a/"%string.
Proof.
  split_all; by_computation.
Qed.

Example tree_examples :
  tree fs_old_new "new" true = Ok ["a"; "b"; "sub/c"]%string
  /\ tree fs_old_new "new/" true = Ok [""; ""; "ub/c"]%string
  /\ tree fs_old_new "new/a" true = Ok []
  /\ tree fs_old_new "nowhere" true = Ok []
  /\ tree fs_old_new (String zero "new") true = Raise ValueError.
Proof.
  split_all; by_computation.
Qed.

(** ** Byte strings *)

Lemma bytes_eqb_eq (a b : list byte) : bytes_eqb a b = true <-> a = b.
Proof.
  unfold bytes_eqb. destruct (list_eq_dec byte_eq_dec a b); split; congruence.
Qed.

Lemma bytes_eqb_neq (a b : list byte) : a <> b -> bytes_eqb a b = false.
Proof.
  unfold bytes_eqb. destruct (list_eq_dec byte_eq_dec a b); congruence.
Qed.

Lemma slice_length (data : list byte) (p n : Z) :
  0 <= p -> 0 <= n -> p + n <= len data ->
  Z.of_nat (length (slice data p n)) = n.
Proof.
  unfold slice, len. intros. rewrite length_firstn, length_skipn. lia.
Qed.

Lemma slice_length_le (data : list byte) (p n : Z) :
  0 <= n -> Z.of_nat (length (slice data p n)) <= n.
Proof.
  unfold slice. intros. rewrite length_firstn. lia.
Qed.

Lemma slice_short (data : list byte) (p n : Z) :
  0 <= p -> 0 < n -> len data < p + n ->
  Z.of_nat (length (slice data p n)) < n.
Proof.
  unfold slice, len. intros. rewrite length_firstn, length_skipn. lia.
Qed.

Lemma slice_slice (data : list byte) (p n a b : Z) :
  0 <= p -> 0 <= a -> 0 <= b -> a + b <= n ->
  slice (slice data p n) a b = slice data (p + a) b.
Proof.
  unfold slice. intros.
  rewrite skipn_firstn_comm, firstn_firstn, skipn_skipn.
  replace (Nat.min (Z.to_nat b) (Z.to_nat n - Z.to_nat a)) with (Z.to_nat b) by lia.
  replace (Z.to_nat a + Z.to_nat p)%nat with (Z.to_nat (p + a)) by lia.
  reflexivity.
Qed.

Lemma slice_whole (data : list byte) : slice data 0 (len data) = data.
Proof.
  unfold slice, len. simpl. rewrite Nat2Z.id. apply firstn_all.
Qed.

(** ** The primitives of the file object, on an open file *)

Lemma fits_ssize_true (z : Z) : - 2 ^ 63 <= z < 2 ^ 63 -> fits_ssize z = true.
Proof.
  intros H. unfold fits_ssize.
  apply andb_true_intro; split; [apply Z.leb_le | apply Z.ltb_lt]; lia.
Qed.

Lemma ltb_false (a b : Z) : b <= a -> (a <? b) = false.
Proof. intros; apply Z.ltb_ge; lia. Qed.

Lemma ltb_true (a b : Z) : a < b -> (a <? b) = true.
Proof. intros; apply Z.ltb_lt; lia. Qed.

Lemma eqb_false (a b : Z) : a <> b -> (a =? b) = false.
Proof. intros; apply Z.eqb_neq; lia. Qed.

Lemma leb_false (a b : Z) : b < a -> (a <=? b) = false.
Proof. intros; apply Z.leb_gt; lia. Qed.

Lemma leb_true (a b : Z) : a <= b -> (a <=? b) = true.
Proof. intros; apply Z.leb_le; lia. Qed.

Lemma byte_val_range (b : byte) : 0 <= byte_val b < 256.
Proof.
  unfold byte_val. pose proof (Byte.to_N_bounded b). lia.
Qed.

Lemma le_uint_range (bs : list byte) :
  0 <= le_uint bs < 256 ^ Z.of_nat (length bs).
Proof.
  induction bs as [|b tl IH].
  - simpl. lia.
  - cbn [le_uint length]. rewrite Nat2Z.inj_succ, Z.pow_succ_r by lia.
    pose proof (byte_val_range b). lia.
Qed.

Lemma u32_at_range (data : list byte) (p : Z) : 0 <= u32_at data p < 2 ^ 32.
Proof.
  unfold u32_at. pose proof (le_uint_range (slice data p 4)) as H.
  pose proof (slice_length_le data p 4 ltac:(lia)) as L.
  assert (256 ^ Z.of_nat (length (slice data p 4)) <= 256 ^ 4)
    by (apply Z.pow_le_mono_r; lia).
  change (256 ^ 4) with (2 ^ 32) in *. lia.
Qed.

Lemma u64_at_range (data : list byte) (p : Z) : 0 <= u64_at data p < 2 ^ 64.
Proof.
  unfold u64_at. pose proof (le_uint_range (slice data p 8)) as H.
  pose proof (slice_length_le data p 8 ltac:(lia)) as L.
  assert (256 ^ Z.of_nat (length (slice data p 8)) <= 256 ^ 8)
    by (apply Z.pow_le_mono_r; lia).
  change (256 ^ 8) with (2 ^ 64) in *. lia.
Qed.

Lemma i32_at_range (data : list byte) (p : Z) :
  - 2 ^ 31 <= i32_at data p < 2 ^ 31.
Proof.
  unfold i32_at, le_int32. pose proof (u32_at_range data p) as H.
  unfold u32_at in H.
  destruct (Z.ltb_spec (le_uint (slice data p 4)) (2 ^ 31)); lia.
Qed.

Lemma tell_open (data : list byte) (q : nat) :
  tell (mkfile data q false) = (Ok (Z.of_nat q), mkfile data q false).
Proof. reflexivity. Qed.

Section FileObject.

Variable max_offset : Z.

Lemma read_at (data : list byte) (p n : Z) :
  0 <= p -> 0 <= n < 2 ^ 63 - 33 ->
  read n (mkfile data (Z.to_nat p) false)
  = (Ok (slice data p n),
     mkfile data (Z.to_nat p + length (slice data p n)) false).
Proof.
  intros Hp Hn. unfold read.
  rewrite fits_ssize_true by lia.
  rewrite (ltb_false n (-1)) by lia.
  rewrite (leb_false (2 ^ 63 - 33) n) by lia.
  rewrite (eqb_false n (-1)) by lia.
  reflexivity.
Qed.

Lemma read_struct_at {A : Type} (size : Z) (unpack : list byte -> A)
  (data : list byte) (p : Z) :
  0 <= p -> 0 <= size < 2 ^ 63 - 33 -> p + size <= len data ->
  _read_struct size unpack (mkfile data (Z.to_nat p) false)
  = (Ok (unpack (slice data p size)), mkfile data (Z.to_nat (p + size)) false).
Proof.
  intros Hp Hs Hl. unfold _read_struct, bind.
  rewrite read_at by lia.
  pose proof (slice_length data p size Hp (proj1 Hs) Hl) as E.
  rewrite ltb_false by lia.
  unfold ret. do 2 f_equal. lia.
Qed.

Lemma read_struct_short {A : Type} (size : Z) (unpack : list byte -> A)
  (data : list byte) (p : Z) :
  0 <= p -> 0 < size < 2 ^ 63 - 33 -> len data < p + size ->
  _read_struct size unpack (mkfile data (Z.to_nat p) false)
  = (Raise StructError,
     mkfile data (Z.to_nat p + length (slice data p size)) false).
Proof.
  intros Hp Hs Hl. unfold _read_struct, bind.
  rewrite read_at by lia.
  pose proof (slice_short data p size Hp (proj1 Hs) Hl) as E.
  rewrite ltb_true by lia.
  reflexivity.
Qed.

Lemma seek_at (data : list byte) (q : nat) (off : Z) :
  seekable max_offset off ->
  seek max_offset off (mkfile data q false)
  = (Ok off, mkfile data (Z.to_nat off) false).
Proof.
  intros [H1 H2]. unfold seek, seek_to.
  cbn [closed]. rewrite fits_ssize_true by lia.
  rewrite (ltb_false off 0), (ltb_false max_offset off) by lia.
  reflexivity.
Qed.

Lemma seek_cur_at (data : list byte) (p delta : Z) :
  0 <= p -> 0 <= delta < 2 ^ 63 -> p + delta <= max_offset ->
  seek_cur max_offset delta (mkfile data (Z.to_nat p) false)
  = (Ok (p + delta), mkfile data (Z.to_nat (p + delta)) false).
Proof.
  intros Hp Hd Hm. unfold seek_cur, seek_to.
  cbn [closed pos]. rewrite fits_ssize_true by lia.
  rewrite Z2Nat.id by lia.
  rewrite (ltb_false (p + delta) 0), (ltb_false max_offset (p + delta)) by lia.
  reflexivity.
Qed.

Lemma tell_at (data : list byte) (p : Z) :
  0 <= p ->
  tell (mkfile data (Z.to_nat p) false)
  = (Ok p, mkfile data (Z.to_nat p) false).
Proof.
  intros Hp. unfold tell. cbn [closed pos]. rewrite Z2Nat.id by lia. reflexivity.
Qed.

End FileObject.

(** ** The record decoder *)

Section Decoder.

Variable host : byteorder.
Variable max_offset : Z.

(** The header of a record that lies within the file is read, and the
    decoder is left with the type of the record. *)
Lemma read_entry_header (data : list byte) (p : Z) :
  0 <= p -> p + 8 <= len data ->
  _read_entry host max_offset (mkfile data (Z.to_nat p) false)
  = (let nextoffs := u32_at data p in
     let ent_type := tag_at data p in
     if bytes_eqb ent_type tag_PDIR then
       e <- _read_pdir host max_offset ;; ret (Some e)
     else if bytes_eqb ent_type tag_FILE then
       e <- _read_file host max_offset (p + nextoffs) ;; ret (Some e)
     else if bytes_eqb ent_type tag_FREE then ret None
     else ret None) (mkfile data (Z.to_nat (p + 8)) false).
Proof.
  intros Hp Hl. unfold _read_entry.
  unfold bind at 1. rewrite tell_at by lia. cbv beta iota.
  unfold bind at 1. unfold _entry_struct_size.
  rewrite read_struct_at by lia. cbv beta iota.
  unfold _entry_unpack, u32_at, tag_at. cbn [fst snd].
  rewrite !slice_slice by lia.
  replace (p + 0) with p by lia. reflexivity.
Qed.

(** A [FILE] body at [p], read with the next record expected at
    [nextoffs]: the extent starts where the read of the name stopped. *)
Lemma read_file_at (data : list byte) (p nextoffs : Z) (name : pystr) :
  0 <= p -> p + 4 <= len data -> p + 36 <= max_offset ->
  0 <= i32_at data p ->
  _decode_str host (slice data (p + 36) (2 * i32_at data p)) = Ok name ->
  let offs := p + 36 + len (slice data (p + 36) (2 * i32_at data p)) in
  _read_file host max_offset nextoffs (mkfile data (Z.to_nat p) false)
  = (Ok (FileEntry (rstrip_nul name) (offs, nextoffs - offs)),
     mkfile data (Z.to_nat offs) false).
Proof.
  intros Hp Hl Hm Hn Hd offs. unfold _read_file.
  unfold bind at 1. unfold _file_info_struct_size.
  rewrite read_struct_at by lia. cbv beta iota.
  unfold _file_info_unpack. rewrite slice_slice by lia.
  replace (p + 0) with p by lia. fold (i32_at data p).
  pose proof (i32_at_range data p) as Hr.
  unfold bind at 1. rewrite seek_cur_at by lia. cbv beta iota.
  unfold bind at 1. rewrite read_at by lia. cbv beta iota.
  replace (p + 4 + 32) with (p + 36) by lia.
  replace (i32_at data p * 2) with (2 * i32_at data p) by lia.
  rewrite Hd.
  unfold bind at 1. rewrite tell_open. cbv beta iota.
  unfold ret. unfold offs, len.
  replace (Z.of_nat (Z.to_nat (p + 36) + length (slice data (p + 36) (2 * i32_at data p))))
    with (p + 36 + Z.of_nat (length (slice data (p + 36) (2 * i32_at data p)))) by lia.
  do 2 f_equal. lia.
Qed.

(** Resolving a pointer to a [FILE] record. *)
Lemma resolve_FILE (data : list byte) (q : nat) (p : Z) (name : pystr) :
  seekable max_offset p -> p + 12 <= len data -> p + 44 <= max_offset ->
  tag_at data p = tag_FILE ->
  0 <= i32_at data (p + 8) ->
  _decode_str host (slice data (p + 44) (2 * i32_at data (p + 8))) = Ok name ->
  let offs := p + 44 + len (slice data (p + 44) (2 * i32_at data (p + 8))) in
  ChildPointer_read host max_offset (mkChildPointer p) (mkfile data q false)
  = (Ok (Some (FileEntry (rstrip_nul name) (offs, p + u32_at data p - offs))),
     mkfile data (Z.to_nat offs) false).
Proof.
  intros Hs Hl Hm Ht Hn Hd offs. pose proof Hs as [Hs1 Hs2].
  unfold ChildPointer_read. cbn [cp_where].
  unfold bind at 1. rewrite seek_at by assumption. cbv beta iota.
  rewrite read_entry_header by lia. cbv zeta.
  rewrite Ht. change (bytes_eqb tag_FILE tag_PDIR) with false.
  change (bytes_eqb tag_FILE tag_FILE) with true. cbv iota.
  unfold bind at 1.
  replace (p + 44) with (p + 8 + 36) in * by lia.
  rewrite (read_file_at data (p + 8) (p + u32_at data p) name) by (assumption || lia).
  cbv beta iota. unfold ret, offs.
  replace (p + 44) with (p + 8 + 36) by lia. reflexivity.
Qed.

(** The loop over the child slots: one pointer per slot, in the order of
    the slots, appended to those already collected. *)
Lemma read_pdir_children_at (data : list byte) (n : nat) :
  forall (q : Z) (acc : list ChildPointer),
  0 <= q -> q + 12 * Z.of_nat n <= len data ->
  seekable max_offset (q + 12 * Z.of_nat n) ->
  Forall (seekable max_offset) (child_offsets data q n) ->
  _read_pdir_children max_offset n acc (mkfile data (Z.to_nat q) false)
  = (Ok (acc ++ map mkChildPointer (child_offsets data q n)),
     mkfile data (Z.to_nat (q + 12 * Z.of_nat n)) false).
Proof.
  induction n as [|n IH]; intros q acc Hq Hl He Hc.
  - cbn [_read_pdir_children child_offsets map]. unfold ret.
    rewrite app_nil_r. do 3 f_equal. lia.
  - cbn [_read_pdir_children child_offsets map] in *.
    inversion Hc as [|x l Hx Hrest]; subst. destruct He as [He1 He2].
    unfold bind at 1. unfold _pdir_child_struct_size.
    rewrite read_struct_at by lia. cbv beta iota zeta.
    unfold _pdir_child_unpack. cbn [snd].
    rewrite slice_slice by lia. fold (u64_at data (q + 4)).
    unfold bind at 1. rewrite tell_at by lia. cbv beta iota.
    unfold bind at 1. rewrite seek_at by assumption. cbv beta iota.
    unfold bind at 1. rewrite seek_at by (split; lia). cbv beta iota.
    rewrite IH; try assumption; try lia.
    + rewrite <- app_assoc. cbn [app]. do 3 f_equal. lia.
    + split; lia.
Qed.

(** A [PDIR] body at [p] that lies within the file. *)
Lemma read_pdir_at (data : list byte) (p : Z) (name : pystr) :
  let namesize := i32_at data p in
  let childcount := u32_at data (p + 4) in
  let slots := p + 40 + 2 * namesize in
  0 <= p -> 0 <= namesize ->
  slots + 12 * childcount <= len data ->
  seekable max_offset (slots + 12 * childcount) ->
  _decode_str host (slice data (p + 40) (2 * namesize)) = Ok name ->
  Forall (seekable max_offset) (child_offsets data slots (Z.to_nat childcount)) ->
  _read_pdir host max_offset (mkfile data (Z.to_nat p) false)
  = (Ok (DirectoryEntry (rstrip_nul name)
           (map mkChildPointer (child_offsets data slots (Z.to_nat childcount)))),
     mkfile data (Z.to_nat (slots + 12 * childcount)) false).
Proof.
  intros namesize childcount slots Hp Hn Hl [He1 He2] Hd Hc.
  pose proof (u32_at_range data (p + 4)) as Hcc. fold childcount in Hcc.
  pose proof (i32_at_range data p) as Hns. fold namesize in Hns.
  unfold _read_pdir.
  unfold bind at 1. unfold _pdir_info_struct_size.
  rewrite read_struct_at by lia. cbv beta iota zeta.
  unfold _pdir_info_unpack. cbn [fst snd].
  rewrite !slice_slice by lia.
  replace (p + 0) with p by lia.
  fold (i32_at data p) (u32_at data (p + 4)). fold namesize childcount.
  unfold bind at 1. rewrite seek_cur_at by lia. cbv beta iota.
  unfold bind at 1. rewrite read_at by lia. cbv beta iota.
  replace (p + 8 + 32) with (p + 40) by lia.
  replace (namesize * 2) with (2 * namesize) by lia.
  rewrite Hd.
  pose proof (slice_length data (p + 40) (2 * namesize)) as Hsl.
  replace (Z.to_nat (p + 40) + length (slice data (p + 40) (2 * namesize)))%nat
    with (Z.to_nat slots) by (unfold slots; lia).
  unfold bind at 1.
  rewrite read_pdir_children_at; rewrite ?Z2Nat.id by lia;
    try assumption; try (unfold slots; lia); try (split; lia).
Qed.

(** Resolving a pointer to a [PDIR] record. *)
Lemma resolve_PDIR (data : list byte) (q : nat) (p : Z) (name : pystr) :
  let namesize := i32_at data (p + 8) in
  let childcount := u32_at data (p + 12) in
  let slots := p + 48 + 2 * namesize in
  seekable max_offset p ->
  tag_at data p = tag_PDIR ->
  0 <= namesize ->
  slots + 12 * childcount <= len data ->
  seekable max_offset (slots + 12 * childcount) ->
  _decode_str host (slice data (p + 48) (2 * namesize)) = Ok name ->
  Forall (seekable max_offset) (child_offsets data slots (Z.to_nat childcount)) ->
  ChildPointer_read host max_offset (mkChildPointer p) (mkfile data q false)
  = (Ok (Some (DirectoryEntry (rstrip_nul name)
                 (map mkChildPointer
                    (child_offsets data slots (Z.to_nat childcount))))),
     mkfile data (Z.to_nat (slots + 12 * childcount)) false).
Proof.
  intros namesize childcount slots Hs Ht Hn Hl He Hd Hc.
  pose proof Hs as [Hs1 Hs2].
  pose proof (u32_at_range data (p + 12)) as Hcc. fold childcount in Hcc.
  unfold ChildPointer_read. cbn [cp_where].
  unfold bind at 1. rewrite seek_at by assumption. cbv beta iota.
  rewrite read_entry_header by lia. cbv zeta.
  rewrite Ht. change (bytes_eqb tag_PDIR tag_PDIR) with true. cbv iota.
  unfold bind at 1.
  rewrite (read_pdir_at data (p + 8) name); cbv zeta;
    replace (p + 8 + 4) with (p + 12) by lia;
    replace (p + 8 + 40) with (p + 48) by lia;
    fold namesize childcount slots; try assumption; try lia.
  reflexivity.
Qed.

(** *** Decoding leaves the source as it is *)

Lemma same_source_refl (f : fileobj) : same_source f f.
Proof. split; reflexivity. Qed.

Lemma same_source_trans (f1 f2 f3 : fileobj) :
  same_source f1 f2 -> same_source f2 f3 -> same_source f1 f3.
Proof. intros [A B] [C D]; split; congruence. Qed.

Lemma same_source_sym (f1 f2 : fileobj) : same_source f1 f2 -> same_source f2 f1.
Proof. intros [A B]; split; congruence. Qed.

Lemma preserves_ret {A : Type} (a : A) : preserves (ret a).
Proof. intros f; apply same_source_refl. Qed.

Lemma preserves_throw {A : Type} (e : exn) : preserves (@throw A e).
Proof. intros f; apply same_source_refl. Qed.

Lemma preserves_bind {A B : Type} (c : M A) (k : A -> M B) :
  preserves c -> (forall a, preserves (k a)) -> preserves (bind c k).
Proof.
  intros Hc Hk f. unfold bind. specialize (Hc f).
  destruct (c f) as [[a|e] f']; cbn [snd] in *.
  - eapply same_source_trans; [exact Hc | apply Hk].
  - exact Hc.
Qed.

Lemma preserves_read (n : Z) : preserves (read n).
Proof.
  intros f. unfold read.
  destruct (negb (fits_ssize n)); [apply same_source_refl|].
  destruct (n <? -1); [apply same_source_refl|].
  destruct (closed f); [apply same_source_refl|].
  destruct (2 ^ 63 - 33 <=? n); [apply same_source_refl|].
  split; reflexivity.
Qed.

Lemma preserves_tell : preserves tell.
Proof.
  intros f. unfold tell. destruct (closed f); apply same_source_refl.
Qed.

Lemma preserves_seek_to (target : Z) : preserves (seek_to max_offset target).
Proof.
  intros f. unfold seek_to.
  destruct ((target <? 0) || (max_offset <? target));
    [apply same_source_refl | split; reflexivity].
Qed.

Lemma preserves_seek (off : Z) : preserves (seek max_offset off).
Proof.
  intros f. unfold seek.
  destruct (closed f); [apply same_source_refl|].
  destruct (negb (fits_ssize off)); [apply same_source_refl|].
  apply preserves_seek_to.
Qed.

Lemma preserves_seek_cur (delta : Z) : preserves (seek_cur max_offset delta).
Proof.
  intros f. unfold seek_cur.
  destruct (closed f); [apply same_source_refl|].
  destruct (negb (fits_ssize delta)); [apply same_source_refl|].
  apply preserves_seek_to.
Qed.

Lemma preserves_read_struct {A : Type} (size : Z) (unpack : list byte -> A) :
  preserves (_read_struct size unpack).
Proof.
  unfold _read_struct. apply preserves_bind; [apply preserves_read|].
  intros buf. destruct (Z.of_nat (length buf) <? size);
    [apply preserves_throw | apply preserves_ret].
Qed.

Lemma preserves_read_pdir_children (n : nat) :
  forall acc, preserves (_read_pdir_children max_offset n acc).
Proof.
  induction n as [|n IH]; intros acc; cbn [_read_pdir_children].
  - apply preserves_ret.
  - apply preserves_bind; [apply preserves_read_struct|]. intros info.
    apply preserves_bind; [apply preserves_tell|]. intros nextpos.
    apply preserves_bind; [apply preserves_seek|]. intros _.
    apply preserves_bind; [apply preserves_seek|]. intros _.
    apply IH.
Qed.

Lemma preserves_read_pdir : preserves (_read_pdir host max_offset).
Proof.
  unfold _read_pdir.
  apply preserves_bind; [apply preserves_read_struct|]. intros info.
  apply preserves_bind; [apply preserves_seek_cur|]. intros _.
  apply preserves_bind; [apply preserves_read|]. intros name.
  destruct (_decode_str host name); [|apply preserves_throw].
  apply preserves_bind; [apply preserves_read_pdir_children|]. intros children.
  apply preserves_ret.
Qed.

Lemma preserves_read_file (nextoffs : Z) :
  preserves (_read_file host max_offset nextoffs).
Proof.
  unfold _read_file.
  apply preserves_bind; [apply preserves_read_struct|]. intros namesize.
  apply preserves_bind; [apply preserves_seek_cur|]. intros _.
  apply preserves_bind; [apply preserves_read|]. intros name.
  destruct (_decode_str host name); [|apply preserves_throw].
  apply preserves_bind; [apply preserves_tell|]. intros offs.
  apply preserves_ret.
Qed.

Lemma preserves_read_entry : preserves (_read_entry host max_offset).
Proof.
  unfold _read_entry.
  apply preserves_bind; [apply preserves_tell|]. intros curoffs.
  apply preserves_bind; [apply preserves_read_struct|]. intros hd.
  cbv zeta.
  destruct (bytes_eqb (snd hd) tag_PDIR).
  { apply preserves_bind; [apply preserves_read_pdir|].
    intros e; apply preserves_ret. }
  destruct (bytes_eqb (snd hd) tag_FILE).
  { apply preserves_bind; [apply preserves_read_file|].
    intros e; apply preserves_ret. }
  destruct (bytes_eqb (snd hd) tag_FREE); apply preserves_ret.
Qed.

Lemma preserves_ChildPointer_read (c : ChildPointer) :
  preserves (ChildPointer_read host max_offset c).
Proof.
  unfold ChildPointer_read.
  apply preserves_bind; [apply preserves_seek|]. intros _.
  apply preserves_read_entry.
Qed.

Lemma preserves_iter_from (rest : list ChildPointer) :
  preserves (DirectoryEntry_iter_from host max_offset rest).
Proof.
  induction rest as [|c rest IH]; cbn [DirectoryEntry_iter_from].
  - apply preserves_ret.
  - apply preserves_bind; [apply preserves_ChildPointer_read|]. intros e.
    apply preserves_bind; [apply IH|]. intros es. apply preserves_ret.
Qed.

(** *** Decoding depends on the source and the offset only *)

(** After a seek, two states over the same source are the same state. *)
Lemma seek_same_source (off : Z) (f1 f2 : fileobj) :
  same_source f1 f2 ->
  fst (seek max_offset off f1) = fst (seek max_offset off f2)
  /\ (returns (fst (seek max_offset off f1)) ->
      snd (seek max_offset off f1) = snd (seek max_offset off f2)).
Proof.
  destruct f1 as [d1 p1 c1], f2 as [d2 p2 c2]. intros [Hd Hc].
  cbn [content closed] in *. subst d2 c2.
  unfold seek, seek_to, set_pos. cbn [content closed].
  destruct c1; [split; [reflexivity | intros [a Ha]; discriminate]|].
  destruct (negb (fits_ssize off));
    [split; [reflexivity | intros [a Ha]; discriminate]|].
  destruct ((off <? 0) || (max_offset <? off));
    [split; [reflexivity | intros [a Ha]; discriminate]|].
  split; reflexivity.
Qed.

Lemma ChildPointer_read_same_source (c : ChildPointer) (f1 f2 : fileobj) :
  same_source f1 f2 ->
  fst (ChildPointer_read host max_offset c f1)
  = fst (ChildPointer_read host max_offset c f2).
Proof.
  intros H. unfold ChildPointer_read, bind.
  destruct (seek_same_source (cp_where c) f1 f2 H) as [E1 E2].
  destruct (seek max_offset (cp_where c) f1) as [[a|e] f1'];
    destruct (seek max_offset (cp_where c) f2) as [[a'|e'] f2'];
    cbn [fst snd] in *; try discriminate.
  - rewrite (E2 (ex_intro _ a eq_refl)). reflexivity.
  - congruence.
Qed.

Lemma iter_from_same_source (rest : list ChildPointer) :
  forall f1 f2, same_source f1 f2 ->
  fst (DirectoryEntry_iter_from host max_offset rest f1)
  = fst (DirectoryEntry_iter_from host max_offset rest f2).
Proof.
  induction rest as [|c rest IH]; intros f1 f2 H;
    cbn [DirectoryEntry_iter_from].
  - reflexivity.
  - unfold bind at 1 3.
    pose proof (ChildPointer_read_same_source c f1 f2 H) as E.
    pose proof (preserves_ChildPointer_read c f1) as P1.
    pose proof (preserves_ChildPointer_read c f2) as P2.
    destruct (ChildPointer_read host max_offset c f1) as [[a|e] f1'];
      destruct (ChildPointer_read host max_offset c f2) as [[a'|e'] f2'];
      cbn [fst snd] in *; try discriminate; [|congruence].
    injection E as <-.
    assert (S12 : same_source f1' f2').
    { eapply same_source_trans; [apply same_source_sym; exact P1|].
      eapply same_source_trans; [exact H | exact P2]. }
    specialize (IH f1' f2' S12). unfold bind.
    destruct (DirectoryEntry_iter_from host max_offset rest f1') as [[x|e] g1];
      destruct (DirectoryEntry_iter_from host max_offset rest f2') as [[x'|e'] g2];
      cbn [fst] in *; try discriminate; unfold ret; cbn [fst]; congruence.
Qed.

Lemma preserves_iter (d : entry) : preserves (DirectoryEntry_iter host max_offset d).
Proof.
  destruct d as [name children|name w]; cbn [DirectoryEntry_iter].
  - apply preserves_iter_from.
  - apply preserves_throw.
Qed.

Lemma iter_same_source (d : entry) (f1 f2 : fileobj) :
  same_source f1 f2 ->
  fst (DirectoryEntry_iter host max_offset d f1)
  = fst (DirectoryEntry_iter host max_offset d f2).
Proof.
  intros H. destruct d as [name children|name w]; cbn [DirectoryEntry_iter].
  - apply iter_from_same_source; exact H.
  - reflexivity.
Qed.

(** Iterating is the generator advanced until it is exhausted: each step
    resolves one child, the next in order, and no other. *)
Lemma iter_from_next (rest : list ChildPointer) (fd : fileobj) :
  DirectoryEntry_iter_from host max_offset rest fd
  = (step <- DirectoryEntry_next host max_offset rest ;;
     match step with
     | None => ret []
     | Some (e, rest') =>
         es <- DirectoryEntry_iter_from host max_offset rest' ;; ret (e :: es)
     end) fd.
Proof.
  destruct rest as [|c rest]; [reflexivity|].
  cbn [DirectoryEntry_iter_from DirectoryEntry_next]. unfold bind.
  destruct (ChildPointer_read host max_offset c fd) as [[e|x] fd1]; reflexivity.
Qed.

(** Resolving a pointer to a record that is neither [PDIR] nor [FILE]. *)
Lemma resolve_other (data : list byte) (q : nat) (p : Z) :
  seekable max_offset p -> p + 8 <= len data ->
  tag_at data p <> tag_PDIR -> tag_at data p <> tag_FILE ->
  ChildPointer_read host max_offset (mkChildPointer p) (mkfile data q false)
  = (Ok None, mkfile data (Z.to_nat (p + 8)) false).
Proof.
  intros Hs Hl H1 H2. pose proof Hs as [Hs1 Hs2].
  unfold ChildPointer_read. cbn [cp_where].
  unfold bind at 1. rewrite seek_at by assumption. cbv beta iota.
  rewrite read_entry_header by lia. cbv zeta.
  rewrite (bytes_eqb_neq _ _ H1), (bytes_eqb_neq _ _ H2).
  destruct (bytes_eqb (tag_at data p) tag_FREE); reflexivity.
Qed.

Lemma slice_nth_error (data : list byte) (p n : Z) (i : nat) :
  (i < length (slice data p n))%nat ->
  nth_error (slice data p n) i = nth_error data (Z.to_nat p + i).
Proof.
  unfold slice. intros Hi. rewrite length_firstn in Hi.
  rewrite nth_error_firstn, nth_error_skipn.
  destruct (Nat.ltb_spec i (Z.to_nat n)); [reflexivity | lia].
Qed.

(** *** The claims on the record decoder *)

(** C1, as the code has it: at a seekable offset where eight bytes can be
    read and the type field is none of [PDIR], [FILE], [FREE], resolving
    raises nothing; it returns [None], the value a [FREE] record gives, and
    leaves the reader behind the record header. *)
Theorem unknown_tag_decodes_to_None (data : list byte) (q : nat) (p : Z) :
  seekable max_offset p -> p + 8 <= len data ->
  unknown_tag (tag_at data p) ->
  ChildPointer_read host max_offset (mkChildPointer p) (mkfile data q false)
  = (Ok None, mkfile data (Z.to_nat (p + 8)) false).
Proof.
  intros Hs Hl (H1 & H2 & _). apply resolve_other; assumption.
Qed.

(** C5: a [FILE] record resolved at [p] gives a [FileEntry] whose offset is
    the position of the reader after the name, where resolving also leaves
    the reader, and whose size is [p] plus the header's next offset minus
    that position.  When the whole name lies in the file the position is
    [p + 44] plus two bytes per code unit of the name. *)
Theorem file_extent_from_next_offset (data : list byte) (q : nat) (p : Z)
  (name : pystr) :
  FILE_record_at host max_offset data p name ->
  let offs := file_data_start data p in
  ChildPointer_read host max_offset (mkChildPointer p) (mkfile data q false)
  = (Ok (Some (FileEntry (rstrip_nul name) (offs, p + u32_at data p - offs))),
     mkfile data (Z.to_nat offs) false)
  /\ (p + 44 + 2 * i32_at data (p + 8) <= len data ->
      offs = p + 44 + 2 * i32_at data (p + 8)).
Proof.
  intros (Hs & Hl & Hm & Ht & Hn & Hd) offs. split.
  - apply resolve_FILE; assumption.
  - intros Hfull. unfold offs, file_data_start. destruct Hs as [Hs1 Hs2].
    unfold len at 1. rewrite slice_length; lia.
Qed.

(** C3, as the code has it: when the header of a [FILE] record places the
    next record before the end of the name, resolving raises nothing; it
    returns a [FileEntry] whose size is the negative difference. *)
Theorem negative_extent_is_returned (data : list byte) (q : nat) (p : Z)
  (name : pystr) :
  FILE_record_at host max_offset data p name ->
  p + u32_at data p < file_data_start data p ->
  exists size,
    fst (ChildPointer_read host max_offset (mkChildPointer p) (mkfile data q false))
    = Ok (Some (FileEntry (rstrip_nul name) (file_data_start data p, size)))
    /\ size = p + u32_at data p - file_data_start data p
    /\ size < 0.
Proof.
  intros (Hs & Hl & Hm & Ht & Hn & Hd) Hneg.
  exists (p + u32_at data p - file_data_start data p).
  split; [|split; [reflexivity | lia]].
  rewrite (resolve_FILE data q p name) by assumption. reflexivity.
Qed.

(** [extract] with a size that a byte string can have. *)
Lemma extract_within_limit (self : File) (data : list byte)
  (q : nat) (name : pystr) (offs size : Z) :
  seekable max_offset offs -> 0 <= size < 2 ^ 63 - 33 ->
  let got := slice data offs size in
  File_extract max_offset self (FileEntry name (offs, size)) (mkfile data q false)
  = (Ok got, mkfile data (Z.to_nat offs + length got) false)
  /\ (forall i, (i < length got)%nat ->
        nth_error got i = nth_error data (Z.to_nat offs + i))
  /\ len got = Z.min size (Z.max 0 (len data - offs))
  /\ (offs + size <= len data -> len got = size)
  /\ (Z.max 0 (len data - offs) < size -> len got < size).
Proof.
  intros Hs Hn got. pose proof Hs as [Hs1 Hs2].
  assert (Hlen : len got = Z.min size (Z.max 0 (len data - offs))).
  { unfold got, len, slice. rewrite length_firstn, length_skipn. lia. }
  split; [|split; [|split; [|split]]].
  - unfold File_extract.
    unfold bind. rewrite seek_at by assumption.
    rewrite read_at by lia. reflexivity.
  - intros i Hi. apply slice_nth_error; assumption.
  - exact Hlen.
  - intros Hl. lia.
  - intros Hl. lia.
Qed.

(** C4, as the code has it: for a size from 0 to 2^32 - 1, which is every
    size that is not negative and that a decoded FILE record can have,
    [extract] seeks to the offset of the entry and reads; it returns the
    bytes the file holds from the offset on, at most [size] of them, each
    as it lies in the file.  They are exactly [size] when the file reaches
    that far; when fewer than [size] bytes lie behind the offset, [extract]
    raises nothing and returns those fewer bytes. *)
Theorem extract_returns_available_bytes (self : File) (data : list byte)
  (q : nat) (name : pystr) (offs size : Z) :
  seekable max_offset offs -> 0 <= size < 2 ^ 32 ->
  let got := slice data offs size in
  File_extract max_offset self (FileEntry name (offs, size)) (mkfile data q false)
  = (Ok got, mkfile data (Z.to_nat offs + length got) false)
  /\ (forall i, (i < length got)%nat ->
        nth_error got i = nth_error data (Z.to_nat offs + i))
  /\ len got = Z.min size (Z.max 0 (len data - offs))
  /\ (offs + size <= len data -> len got = size)
  /\ (Z.max 0 (len data - offs) < size -> len got < size).
Proof.
  intros Hs Hn. apply extract_within_limit; [exact Hs | lia].
Qed.

Lemma child_offsets_length (data : list byte) (n : nat) :
  forall q, length (child_offsets data q n) = n.
Proof.
  induction n as [|n IH]; intros q; cbn [child_offsets length]; congruence.
Qed.

Lemma child_offsets_nth (data : list byte) (n : nat) :
  forall q i, (i < n)%nat ->
  nth_error (child_offsets data q n) i
  = Some (u64_at data (q + 12 * Z.of_nat i + 4)).
Proof.
  induction n as [|n IH]; intros q i Hi; [lia|].
  destruct i as [|i]; cbn [child_offsets nth_error].
  - do 2 f_equal. lia.
  - rewrite IH by lia. do 2 f_equal. lia.
Qed.

Lemma resolve_FREE (data : list byte) (q : nat) (p : Z) :
  FREE_record_at max_offset data p ->
  ChildPointer_read host max_offset (mkChildPointer p) (mkfile data q false)
  = (Ok None, mkfile data (Z.to_nat (p + 8)) false).
Proof.
  intros (Hs & Hl & Ht).
  apply resolve_other; try assumption; rewrite Ht; discriminate.
Qed.

(** C6: resolving a [PDIR] record gives a [DirectoryEntry] whose children
    are pointers, one per child slot, holding the offsets of the slots in
    the order of the slots; the decoder stops behind the last slot and
    asks nothing of the bytes the offsets point at.  When the three
    children of such a directory are a [FILE], a [FREE] and a [FILE]
    record, iterating it yields three values in that order: the first file
    entry, [None], the second file entry. *)
Theorem pdir_children_lazy_in_order (data : list byte) (q : nat) (p : Z)
  (name : pystr) (o1 o2 o3 : Z) (n1 n3 : pystr) :
  PDIR_record_at host max_offset data p name ->
  let offsets := pdir_child_offsets data p in
  let d := DirectoryEntry (rstrip_nul name) (map mkChildPointer offsets) in
  let fd := mkfile data
              (Z.to_nat (pdir_slots data p + 12 * pdir_childcount data p)) false in
  ChildPointer_read host max_offset (mkChildPointer p) (mkfile data q false)
  = (Ok (Some d), fd)
  /\ Z.of_nat (length offsets) = pdir_childcount data p
  /\ (forall i, Z.of_nat i < pdir_childcount data p ->
        nth_error offsets i
        = Some (u64_at data (pdir_slots data p + 12 * Z.of_nat i + 4)))
  /\ (offsets = [o1; o2; o3] ->
      FILE_record_at host max_offset data o1 n1 ->
      FREE_record_at max_offset data o2 ->
      FILE_record_at host max_offset data o3 n3 ->
      fst (DirectoryEntry_iter host max_offset d fd)
      = Ok [Some (FileEntry (rstrip_nul n1)
                    (file_data_start data o1,
                     o1 + u32_at data o1 - file_data_start data o1));
            None;
            Some (FileEntry (rstrip_nul n3)
                    (file_data_start data o3,
                     o3 + u32_at data o3 - file_data_start data o3))]).
Proof.
  intros (Hs & Ht & Hn & Hl & He & Hd & Hc) offsets d fd.
  pose proof (u32_at_range data (p + 12)) as Hcc.
  fold (pdir_childcount data p) in Hcc.
  split; [|split; [|split]].
  - apply resolve_PDIR; assumption.
  - unfold offsets, pdir_child_offsets. rewrite child_offsets_length. lia.
  - intros i Hi. unfold offsets, pdir_child_offsets.
    apply child_offsets_nth. lia.
  - intros Ho (F1 & F2 & F3 & F4 & F5 & F6) HF (G1 & G2 & G3 & G4 & G5 & G6).
    unfold d, fd. rewrite Ho.
    unfold DirectoryEntry_iter. cbn [map DirectoryEntry_iter_from].
    unfold bind at 1. rewrite (resolve_FILE data _ o1 n1) by assumption.
    cbv beta iota.
    unfold bind at 1. unfold bind at 1. rewrite (resolve_FREE data _ o2) by assumption.
    cbv beta iota.
    unfold bind at 1. unfold bind at 1. rewrite (resolve_FILE data _ o3 n3) by assumption.
    reflexivity.
Qed.

(** C7: what a pointer resolves to, and what iterating a directory
    yields, depends on the bytes of the source and on the offsets only: any
    two states of the file object over the same bytes give the same result.
    So resolving the same pointer again, or iterating the same directory
    again, on the state the first run left, gives an equal result (the same
    name and the same child offsets for a directory), and no run changes
    the bytes. *)
Theorem resolution_is_deterministic (c : ChildPointer) (d : entry)
  (fd fd' : fileobj) :
  content fd' = content fd -> closed fd' = closed fd ->
  fst (ChildPointer_read host max_offset c fd')
  = fst (ChildPointer_read host max_offset c fd)
  /\ fst (DirectoryEntry_iter host max_offset d fd')
     = fst (DirectoryEntry_iter host max_offset d fd)
  /\ fst (ChildPointer_read host max_offset c
            (snd (ChildPointer_read host max_offset c fd)))
     = fst (ChildPointer_read host max_offset c fd)
  /\ fst (DirectoryEntry_iter host max_offset d
            (snd (DirectoryEntry_iter host max_offset d fd)))
     = fst (DirectoryEntry_iter host max_offset d fd)
  /\ content (snd (ChildPointer_read host max_offset c fd)) = content fd
  /\ content (snd (DirectoryEntry_iter host max_offset d fd)) = content fd.
Proof.
  intros Hc Hcl.
  assert (S : same_source fd' fd) by (split; assumption).
  split; [|split; [|split; [|split; [|split]]]].
  - apply ChildPointer_read_same_source; exact S.
  - apply iter_same_source; exact S.
  - apply ChildPointer_read_same_source. apply same_source_sym.
    apply preserves_ChildPointer_read.
  - apply iter_same_source. apply same_source_sym.
    apply preserves_iter.
  - symmetry. apply (preserves_ChildPointer_read c fd).
  - symmetry. apply (preserves_iter d fd).
Qed.

End Decoder.

(** ** The archive *)

Section Archive.

Variable host : byteorder.
Variable max_offset : Z.

Lemma open_rb_fresh (fsys : node) (filename : string) (fd : fileobj) :
  open_rb fsys filename = Ok fd ->
  exists data, lookup fsys filename = Found (Reg data) /\ fd = mkfile data 0 false.
Proof.
  unfold open_rb. destruct (lookup fsys filename) as [[data|sz es]| | |];
    try discriminate.
  intros H; injection H as <-. exists data. split; reflexivity.
Qed.

Lemma File_init_unfold (fsys : node) (filename : string) :
  File_init host max_offset fsys filename
  = match open_rb fsys filename with
    | Raise e => (Raise e, None)
    | Ok fd =>
        (fst (File_init_body host max_offset fd),
         Some (snd (File_init_body host max_offset fd)))
    end.
Proof.
  unfold File_init.
  destruct (open_rb fsys filename) as [fd|e]; [|reflexivity].
  destruct (File_init_body host max_offset fd). reflexivity.
Qed.

Lemma preserves_File_init_body : preserves (File_init_body host max_offset).
Proof.
  unfold File_init_body.
  apply preserves_bind; [apply preserves_read_struct|]. intros h.
  apply preserves_bind.
  - unfold File_read_fs. apply preserves_bind; [apply preserves_seek|].
    intros _. apply preserves_read_entry.
  - intros root. apply preserves_ret.
Qed.

(** The file a constructor opened is open when the constructor ends,
    whether it returns or raises. *)
Lemma File_init_leaves_open (fsys : node) (filename : string)
  (r : result File) (fd : fileobj) :
  File_init host max_offset fsys filename = (r, Some fd) ->
  closed fd = false.
Proof.
  rewrite File_init_unfold.
  destruct (open_rb fsys filename) as [fd0|e] eqn:E; [|discriminate].
  destruct (open_rb_fresh _ _ _ E) as (data & _ & ->).
  intros H; injection H as _ <-.
  destruct (preserves_File_init_body (mkfile data 0 false)) as [_ Hc].
  cbn [closed] in Hc. congruence.
Qed.

Lemma header_read_short (data : list byte) :
  len data < 28 ->
  FileHeader_read (mkfile data 0 false)
  = (Raise StructError, mkfile data (length data) false).
Proof.
  intros Hl. unfold FileHeader_read, FileHeader_struct_size.
  change 0%nat with (Z.to_nat 0).
  rewrite read_struct_short by lia.
  unfold slice. change (Z.to_nat 0) with 0%nat. cbn [skipn].
  rewrite firstn_all2 by (unfold len in Hl; lia). reflexivity.
Qed.

Lemma header_read_full (data : list byte) :
  28 <= len data ->
  FileHeader_read (mkfile data 0 false)
  = (Ok (mkFileHeader (u32_at data 0) (slice data 4 4) (u64_at data 12)),
     mkfile data 28 false).
Proof.
  intros Hl. unfold FileHeader_read, FileHeader_struct_size.
  change 0%nat with (Z.to_nat 0).
  rewrite read_struct_at by lia.
  unfold FileHeader_unpack, u32_at, u64_at.
  rewrite !slice_slice by lia. reflexivity.
Qed.

(** C2, as the code has it: [__init__] raises [struct.error], with nothing
    read but the start of the file, when the file is shorter than the 28
    bytes of the header.  The identifier is stored as read and compared
    with nothing, and whatever the decoder returns at the root offset
    becomes the root: a file with a full header opens whenever decoding at
    its root offset returns, be the result a directory, a file entry or
    [None]. *)
Theorem open_checks_header_length_only (fsys : node) (filename : string)
  (data : list byte) :
  lookup fsys filename = Found (Reg data) ->
  (len data < 28 ->
   File_init host max_offset fsys filename
   = (Raise StructError, Some (mkfile data (length data) false)))
  /\ (28 <= len data ->
      forall (root : option entry) (fd : fileobj),
      ChildPointer_read host max_offset (mkChildPointer (u64_at data 12))
        (mkfile data 28 false) = (Ok root, fd) ->
      File_init host max_offset fsys filename
      = (Ok (mkFile (mkFileHeader (u32_at data 0) (slice data 4 4)
                       (u64_at data 12)) root),
         Some fd)).
Proof.
  intros Hlk.
  assert (Ho : open_rb fsys filename = Ok (mkfile data 0 false))
    by (unfold open_rb; rewrite Hlk; reflexivity).
  split.
  - intros Hl. rewrite File_init_unfold, Ho.
    assert (E : File_init_body host max_offset (mkfile data 0 false)
                = (Raise StructError, mkfile data (length data) false)).
    { unfold File_init_body. unfold bind at 1.
      rewrite header_read_short by assumption. reflexivity. }
    rewrite E. reflexivity.
  - intros Hl root fd Hr. rewrite File_init_unfold, Ho.
    assert (E : File_init_body host max_offset (mkfile data 0 false)
                = (Ok (mkFile (mkFileHeader (u32_at data 0) (slice data 4 4)
                                 (u64_at data 12)) root), fd)).
    { unfold File_init_body. unfold bind at 1.
      rewrite header_read_full by assumption. cbv beta iota.
      unfold bind at 1. unfold File_read_fs. cbn [rootoffs].
      unfold ChildPointer_read in Hr. cbn [cp_where] in Hr.
      rewrite Hr. reflexivity. }
    rewrite E. reflexivity.
Qed.

(** C8, as the code has it: the only call that closes the file is the one
    in [__exit__].  When the constructor returns, the file is open while
    the body of the [with] statement runs and closed when the statement
    ends, whether the body returned or raised.  When the constructor
    raises after opening the file, in the header or at the root record, no
    object exists to dispose of and the module leaves the file open. *)
Theorem source_closed_by_exit_only {A : Type} (fsys : node)
  (filename : string) (body : File -> M A) :
  (forall self fd,
     File_init host max_offset fsys filename = (Ok self, Some fd) ->
     closed fd = false
     /\ with_File host max_offset fsys filename body
        = (fst (body self fd),
           Some (mkfile (content (snd (body self fd)))
                   (pos (snd (body self fd))) true))
     /\ snd (File_exit self (snd (File_exit self fd))) = snd (File_exit self fd))
  /\ (forall e fd,
        File_init host max_offset fsys filename = (Raise e, Some fd) ->
        closed fd = false
        /\ with_File host max_offset fsys filename body = (Raise e, Some fd)).
Proof.
  split.
  - intros self fd Hi. split; [eapply File_init_leaves_open; exact Hi|].
    split; [|reflexivity].
    unfold with_File. rewrite Hi. unfold File_enter.
    destruct (body self fd) as [r fd1]. reflexivity.
  - intros e fd Hi. split; [eapply File_init_leaves_open; exact Hi|].
    unfold with_File. rewrite Hi. reflexivity.
Qed.

End Archive.

(** ** The directory diff *)



(** C9, at two extraction directories where [gone] exists in the old one
    only: [compare] classifies the pair of paths as [Deleted], and the old
    tree lists the name, but [diff] takes its names from the new tree alone
    and writes the modified and the added file and nothing about [gone]. *)
Theorem diff_misses_deleted_file :
  tree fs_old_new "old" true = Ok ["a"; "b"; "gone"]%string
  /\ tree fs_old_new "new" true = Ok ["a"; "b"; "sub/c"]%string
  /\ compare fs_old_new (os_path_join "old" "gone") (os_path_join "new" "gone")
       0x3FFF = Ok Deleted
  /\ diff fs_old_new "old" "new" 0x3FFF None DefaultText (Some [])
     = (Ok tt,
        [Some [("MODIFIED b" ++ newline)%string;
               ("ADDED    sub/c" ++ newline)%string];
         None]).
Proof.
  split_all; vm_compute; reflexivity.
Qed.

(** ** The claims at concrete archives and directories *)

Lemma unknown_tag_decodes_to_None_witness :
  ChildPointer_read Little off_max (mkChildPointer 0)
    (mkfile record_unknown_tag 5 false)
  = (Ok None, mkfile record_unknown_tag 8 false).
Proof.
  apply (unknown_tag_decodes_to_None Little off_max record_unknown_tag 5 0);
    record_facts.
Defined.

(** C1 as stated fails: the record has the tag [ABCD] and resolving it
    returns a value. *)
Lemma unknown_tag_is_not_an_error :
  unknown_tag (tag_at record_unknown_tag 0)
  /\ fst (ChildPointer_read Little off_max (mkChildPointer 0)
            (mkfile record_unknown_tag 0 false)) = Ok None
  /\ ~ raises (fst (ChildPointer_read Little off_max (mkChildPointer 0)
                      (mkfile record_unknown_tag 0 false))).
Proof.
  split; [record_facts|]. split; [by_computation|].
  intros [e He]. vm_compute in He. discriminate.
Qed.

Lemma open_checks_header_length_only_witness :
  File_init Little off_max (fs_of_archive "short" [x01; x00; x00]) "short"
  = (Raise StructError, Some (mkfile [x01; x00; x00] 3 false))
  /\ File_init Little off_max (fs_of_archive "a.ggpk" archive_bad_magic) "a.ggpk"
     = (Ok (mkFile (mkFileHeader 1 (ascii_bytes "XXXX") 28)
              (Some (DirectoryEntry []
                       [mkChildPointer 114; mkChildPointer 164;
                        mkChildPointer 180]))),
        Some (mkfile archive_bad_magic 114 false)).
Proof.
  split.
  - apply (proj1 (open_checks_header_length_only Little off_max
                    (fs_of_archive "short" [x01; x00; x00]) "short"
                    [x01; x00; x00] eq_refl)).
    by_computation.
  - apply (proj2 (open_checks_header_length_only Little off_max
                    (fs_of_archive "a.ggpk" archive_bad_magic) "a.ggpk"
                    archive_bad_magic eq_refl)
             ltac:(by_computation)
             (Some (DirectoryEntry []
                      [mkChildPointer 114; mkChildPointer 164;
                       mkChildPointer 180]))
             (mkfile archive_bad_magic 114 false)).
    by_computation.
Defined.

(** C2 as stated fails: an archive whose identifier is [XXXX] opens, and so
    does one whose root offset points at a [FILE] record. *)
Lemma open_accepts_bad_magic_and_file_root :
  ascii_bytes "XXXX" <> ascii_bytes "GGPK"
  /\ fst (File_init Little off_max
            (fs_of_archive "a.ggpk" archive_bad_magic) "a.ggpk")
     = Ok (mkFile (mkFileHeader 1 (ascii_bytes "XXXX") 28)
             (Some (DirectoryEntry []
                      [mkChildPointer 114; mkChildPointer 164;
                       mkChildPointer 180])))
  /\ fst (File_init Little off_max
            (fs_of_archive "a.ggpk" archive_root_file) "a.ggpk")
     = Ok (mkFile (mkFileHeader 1 (ascii_bytes "GGPK") 114)
             (Some (FileEntry [120] (162, 2)))).
Proof.
  split_all; by_computation.
Qed.

Lemma negative_extent_is_returned_witness :
  exists size,
    fst (ChildPointer_read Little off_max (mkChildPointer 0)
           (mkfile record_negative_length 0 false))
    = Ok (Some (FileEntry (rstrip_nul [])
                  (file_data_start record_negative_length 0, size)))
    /\ size = 0 + u32_at record_negative_length 0
              - file_data_start record_negative_length 0
    /\ size < 0.
Proof.
  apply (negative_extent_is_returned Little off_max record_negative_length
           0%nat 0 []); record_facts.
Defined.

(** C3 as stated fails: the computed length of the record is -44 and
    resolving it returns a file entry. *)
Lemma negative_length_is_not_an_error :
  tag_at record_negative_length 0 = tag_FILE
  /\ 0 + u32_at record_negative_length 0
     - file_data_start record_negative_length 0 = -44
  /\ fst (ChildPointer_read Little off_max (mkChildPointer 0)
            (mkfile record_negative_length 0 false))
     = Ok (Some (FileEntry [] (44, -44))).
Proof.
  split_all; by_computation.
Qed.

Lemma extract_returns_available_bytes_witness :
  File_extract off_max (mkFile (mkFileHeader 1 (ascii_bytes "GGPK") 28) None)
    (FileEntry [120] (162, 2)) (mkfile archive_xy 114 false)
  = (Ok (ascii_bytes "hi"), mkfile archive_xy 164 false).
Proof.
  apply (proj1 (extract_returns_available_bytes off_max
                  (mkFile (mkFileHeader 1 (ascii_bytes "GGPK") 28) None)
                  archive_xy 114%nat [120] 162 2
                  ltac:(record_facts) ltac:(record_facts))).
Defined.

(** C4 as stated fails: ten bytes are asked for where three are left, and
    [extract] returns the three. *)
Lemma short_extract_is_not_an_error :
  len archive_xy < 228 + 10
  /\ fst (File_extract off_max
            (mkFile (mkFileHeader 1 (ascii_bytes "GGPK") 28) None)
            (FileEntry [121] (228, 10)) (mkfile archive_xy 0 false))
     = Ok (ascii_bytes "yo!").
Proof.
  split; by_computation.
Qed.

Lemma file_extent_from_next_offset_witness :
  ChildPointer_read Little off_max (mkChildPointer 114) (mkfile archive_xy 0 false)
  = (Ok (Some (FileEntry [120] (162, 2))), mkfile archive_xy 162 false)
  /\ 162 = 114 + 44 + 2 * 2.
Proof.
  destruct (file_extent_from_next_offset Little off_max archive_xy 0%nat 114
              [120; 0] ltac:(record_facts)) as [H1 H2].
  split; [exact H1 | reflexivity].
Defined.

Lemma pdir_children_lazy_in_order_witness :
  ChildPointer_read Little off_max (mkChildPointer 28) (mkfile archive_xy 0 false)
  = (Ok (Some (DirectoryEntry []
                 [mkChildPointer 114; mkChildPointer 164; mkChildPointer 180])),
     mkfile archive_xy 114 false)
  /\ fst (DirectoryEntry_iter Little off_max
            (DirectoryEntry []
               [mkChildPointer 114; mkChildPointer 164; mkChildPointer 180])
            (mkfile archive_xy 114 false))
     = Ok [Some (FileEntry [120] (162, 2)); None; Some (FileEntry [121] (228, 3))].
Proof.
  assert (P : PDIR_record_at Little off_max archive_xy 28 [0]).
  { record_facts. }
  destruct (pdir_children_lazy_in_order Little off_max archive_xy 0%nat 28 [0]
              114 164 180 [120; 0] [121; 0] P) as (H1 & _ & _ & H4).
  split; [exact H1|].
  apply H4; [reflexivity | record_facts | record_facts | record_facts].
Defined.

Lemma resolution_is_deterministic_witness :
  fst (ChildPointer_read Little off_max (mkChildPointer 28)
         (mkfile archive_xy 200 false))
  = fst (ChildPointer_read Little off_max (mkChildPointer 28)
           (mkfile archive_xy 0 false)).
Proof.
  apply (proj1 (resolution_is_deterministic Little off_max (mkChildPointer 28)
                  (DirectoryEntry [] []) (mkfile archive_xy 0 false)
                  (mkfile archive_xy 200 false) eq_refl eq_refl)).
Defined.

Lemma source_closed_by_exit_only_witness :
  with_File Little off_max (fs_of_archive "a.ggpk" archive_xy) "a.ggpk"
    (fun _ => @throw unit KeyError)
  = (Raise KeyError, Some (mkfile archive_xy 114 true))
  /\ with_File Little off_max (fs_of_archive "short" [x01; x00; x00]) "short"
       (fun _ => @throw unit KeyError)
     = (Raise StructError, Some (mkfile [x01; x00; x00] 3 false)).
Proof.
  split.
  - apply (proj1 (source_closed_by_exit_only Little off_max
                    (fs_of_archive "a.ggpk" archive_xy) "a.ggpk"
                    (fun _ => @throw unit KeyError))
             (mkFile (mkFileHeader 1 (ascii_bytes "GGPK") 28)
                (Some (DirectoryEntry []
                         [mkChildPointer 114; mkChildPointer 164;
                          mkChildPointer 180])))
             (mkfile archive_xy 114 false)).
    by_computation.
  - apply (proj2 (source_closed_by_exit_only Little off_max
                    (fs_of_archive "short" [x01; x00; x00]) "short"
                    (fun _ => @throw unit KeyError))
             StructError (mkfile [x01; x00; x00] 3 false)).
    by_computation.
Defined.

(** C8 as stated fails: the header of a three-byte file cannot be read, the
    constructor raises, and the file it opened is open when the [with]
    statement is over. *)
Lemma failed_open_leaves_source_open :
  with_File Little off_max (fs_of_archive "short" [x01; x00; x00]) "short"
    (fun _ => ret tt)
  = (Raise StructError, Some (mkfile [x01; x00; x00] 3 false))
  /\ closed (mkfile [x01; x00; x00] 3 false) = false.
Proof.
  split; by_computation.
Qed.



(** * Further properties of ggpk.py *)

Lemma read_all_at (data : list byte) (q : nat) :
  read (-1) (mkfile data q false)
  = (Ok (skipn q data), mkfile data (q + length (skipn q data)) false).
Proof. reflexivity. Qed.

Lemma read_negative (n : Z) (f : fileobj) :
  - 2 ^ 63 <= n < -1 -> read n f = (Raise ValueError, f).
Proof.
  intros H. unfold read. rewrite fits_ssize_true by lia.
  rewrite ltb_true by lia. reflexivity.
Qed.

(** A size outside the C type, or one no byte string can have. *)
Lemma read_overflow (n : Z) (f : fileobj) :
  n < - 2 ^ 63 \/ 2 ^ 63 - 33 <= n -> closed f = false ->
  read n f = (Raise OverflowError, f).
Proof.
  intros H Hc. unfold read, fits_ssize.
  destruct (Z.leb_spec (- 2 ^ 63) n) as [Hlo|Hlo];
    [|reflexivity].
  destruct (Z.ltb_spec n (2 ^ 63)) as [Hhi|Hhi]; [|reflexivity].
  cbn [andb negb]. rewrite (ltb_false n (-1)) by lia. rewrite Hc.
  rewrite (leb_true (2 ^ 63 - 33) n) by lia. reflexivity.
Qed.

Section Misuse.

Variable host : byteorder.
Variable max_offset : Z.

Lemma seek_closed (off : Z) (f : fileobj) :
  closed f = true -> seek max_offset off f = (Raise ValueError, f).
Proof. intros H. unfold seek. rewrite H. reflexivity. Qed.

(** X1: once [__exit__] has run, the archive is unusable but fails
    cleanly: resolving any pointer, extracting any file entry and iterating
    a directory that has a child all raise [ValueError] and leave the file
    closed; iterating a directory without children still returns the empty
    sequence. *)
Theorem closed_archive_raises_ValueError (self : File) (fd : fileobj)
  (c : ChildPointer) (children : list ChildPointer) (name : pystr) (w : Z * Z) :
  let fd' := snd (File_exit self fd) in
  closed fd' = true
  /\ ChildPointer_read host max_offset c fd' = (Raise ValueError, fd')
  /\ File_extract max_offset self (FileEntry name w) fd' = (Raise ValueError, fd')
  /\ DirectoryEntry_iter host max_offset (DirectoryEntry name (c :: children)) fd'
     = (Raise ValueError, fd')
  /\ DirectoryEntry_iter host max_offset (DirectoryEntry name []) fd' = (Ok [], fd').
Proof.
  intros fd'. assert (Hc : closed fd' = true) by reflexivity.
  split; [exact Hc|]. split; [|split; [|split]].
  - unfold ChildPointer_read, bind. rewrite seek_closed by exact Hc. reflexivity.
  - destruct w as [offs size]. unfold File_extract, bind.
    rewrite seek_closed by exact Hc. reflexivity.
  - cbn [DirectoryEntry_iter DirectoryEntry_iter_from].
    unfold bind at 1. unfold ChildPointer_read, bind at 1.
    rewrite seek_closed by exact Hc. reflexivity.
  - reflexivity.
Qed.

(** X2: a pointer to an offset where fewer than the eight bytes of a
    record header are left, at the end of the file or behind it, does not
    resolve to [None]: resolving raises [struct.error]. *)
Theorem truncated_record_header_raises (data : list byte) (q : nat) (p : Z) :
  seekable max_offset p -> len data < p + 8 ->
  fst (ChildPointer_read host max_offset (mkChildPointer p) (mkfile data q false))
  = Raise StructError.
Proof.
  intros Hs Hl. pose proof Hs as [Hs1 Hs2].
  unfold ChildPointer_read. cbn [cp_where].
  unfold bind at 1. rewrite seek_at by assumption. cbv beta iota.
  unfold _read_entry. unfold bind at 1. rewrite tell_at by lia. cbv beta iota.
  unfold bind at 1. unfold _entry_struct_size.
  rewrite read_struct_short by lia. reflexivity.
Qed.

(** X3: a [FILE] or [PDIR] record whose name length field is negative is
    refused: the read of the name is asked for a negative number of bytes
    and raises [ValueError]. *)
Theorem negative_name_length_raises (data : list byte) (q : nat) (p : Z) :
  seekable max_offset p -> p + 16 <= len data -> p + 48 <= max_offset ->
  tag_at data p = tag_FILE \/ tag_at data p = tag_PDIR ->
  i32_at data (p + 8) < 0 ->
  fst (ChildPointer_read host max_offset (mkChildPointer p) (mkfile data q false))
  = Raise ValueError.
Proof.
  intros Hs Hl Hm Ht Hn. pose proof Hs as [Hs1 Hs2].
  pose proof (i32_at_range data (p + 8)) as Hr.
  unfold ChildPointer_read. cbn [cp_where].
  unfold bind at 1. rewrite seek_at by assumption. cbv beta iota.
  rewrite read_entry_header by lia. cbv zeta.
  destruct Ht as [Ht|Ht]; rewrite Ht.
  - change (bytes_eqb tag_FILE tag_PDIR) with false.
    change (bytes_eqb tag_FILE tag_FILE) with true. cbv iota.
    unfold bind at 1. unfold _read_file.
    unfold bind at 1. unfold _file_info_struct_size.
    rewrite read_struct_at by lia. cbv beta iota.
    unfold _file_info_unpack. rewrite slice_slice by lia.
    replace (p + 8 + 0) with (p + 8) by lia. fold (i32_at data (p + 8)).
    unfold bind at 1. rewrite seek_cur_at by lia. cbv beta iota.
    unfold bind at 1. rewrite read_negative by lia. reflexivity.
  - change (bytes_eqb tag_PDIR tag_PDIR) with true. cbv iota.
    unfold bind at 1. unfold _read_pdir.
    unfold bind at 1. unfold _pdir_info_struct_size.
    rewrite read_struct_at by lia. cbv beta iota zeta.
    unfold _pdir_info_unpack. cbn [fst snd]. rewrite !slice_slice by lia.
    replace (p + 8 + 0) with (p + 8) by lia. fold (i32_at data (p + 8)).
    unfold bind at 1. rewrite seek_cur_at by lia. cbv beta iota.
    unfold bind at 1. rewrite read_negative by lia. reflexivity.
Qed.

(** X4: [extract] on an entry whose size is negative, as [_read_file]
    returns for a malformed record: size -1 makes the read unbounded and
    [extract] returns every byte from the offset to the end of the file; a
    smaller size raises [ValueError]. *)
Theorem extract_negative_size (self : File) (data : list byte) (q : nat)
  (name : pystr) (offs size : Z) :
  seekable max_offset offs ->
  (size = -1 ->
   fst (File_extract max_offset self (FileEntry name (offs, size))
          (mkfile data q false))
   = Ok (skipn (Z.to_nat offs) data))
  /\ (- 2 ^ 63 <= size < -1 ->
      fst (File_extract max_offset self (FileEntry name (offs, size))
             (mkfile data q false))
      = Raise ValueError).
Proof.
  intros Hs. split; intros Hn; unfold File_extract, bind;
    rewrite seek_at by assumption.
  - subst size. rewrite read_all_at. reflexivity.
  - rewrite read_negative by lia. reflexivity.
Qed.

(** X20: [extract] on an entry whose size no byte string can have, 2^63 - 33
    or more, or which does not fit the C type, below -2^63: the seek is
    done, then the read raises [OverflowError]. *)
Theorem extract_oversized_raises_OverflowError (self : File) (data : list byte)
  (q : nat) (name : pystr) (offs size : Z) :
  seekable max_offset offs ->
  size < - 2 ^ 63 \/ 2 ^ 63 - 33 <= size ->
  File_extract max_offset self (FileEntry name (offs, size)) (mkfile data q false)
  = (Raise OverflowError, mkfile data (Z.to_nat offs) false).
Proof.
  intros Hs Hn. unfold File_extract, bind.
  rewrite seek_at by assumption.
  rewrite read_overflow; [reflexivity | exact Hn | reflexivity].
Qed.

End Misuse.

Section Directories.

Variable host : byteorder.
Variable max_offset : Z.

Lemma seek_refused (data : list byte) (q : nat) (off : Z) :
  0 <= off -> ~ seekable max_offset off ->
  seek max_offset off (mkfile data q false)
  = (Raise (seek_refusal off), mkfile data q false).
Proof.
  intros H0 Hn. unfold seek, seek_to, seek_refusal, fits_ssize. cbn [closed].
  destruct (Z.leb_spec (2 ^ 63) off) as [Hb|Hb].
  - rewrite (ltb_false off (2 ^ 63)) by lia. rewrite andb_false_r. reflexivity.
  - rewrite (ltb_true off (2 ^ 63)) by lia.
    replace (- 2 ^ 63 <=? off) with true by (symmetry; apply Z.leb_le; lia).
    cbn [andb negb].
    rewrite (ltb_false off 0) by lia.
    rewrite (ltb_true max_offset off) by (unfold seekable in Hn; lia).
    reflexivity.
Qed.

(** The loop over the child slots stops at the first offset the file does
    not accept. *)
Lemma read_pdir_children_refused (data : list byte) (n : nat) :
  forall (q : Z) (acc : list ChildPointer) (i : nat),
  (i < n)%nat -> 0 <= q ->
  q + 12 * (Z.of_nat i + 1) <= len data ->
  seekable max_offset (q + 12 * (Z.of_nat i + 1)) ->
  Forall (seekable max_offset) (child_offsets data q i) ->
  ~ seekable max_offset (u64_at data (q + 12 * Z.of_nat i + 4)) ->
  fst (_read_pdir_children max_offset n acc (mkfile data (Z.to_nat q) false))
  = Raise (seek_refusal (u64_at data (q + 12 * Z.of_nat i + 4))).
Proof.
  induction n as [|n IH]; intros q acc i Hi Hq Hl [He1 He2] Hc Hbad; [lia|].
  cbn [_read_pdir_children].
  unfold bind at 1. unfold _pdir_child_struct_size.
  rewrite read_struct_at by lia. cbv beta iota zeta.
  unfold _pdir_child_unpack. cbn [snd].
  rewrite slice_slice by lia. fold (u64_at data (q + 4)).
  unfold bind at 1. rewrite tell_at by lia. cbv beta iota.
  destruct i as [|i].
  - replace (q + 12 * Z.of_nat 0 + 4) with (q + 4) in * by lia.
    pose proof (u64_at_range data (q + 4)).
    unfold bind at 1. rewrite seek_refused by (assumption || lia). reflexivity.
  - cbn [child_offsets] in Hc. inversion Hc as [|x l Hx Hrest]; subst.
    unfold bind at 1. rewrite seek_at by assumption. cbv beta iota.
    unfold bind at 1. rewrite seek_at by (split; lia). cbv beta iota.
    replace (q + 12 * Z.of_nat (S i) + 4) with (q + 12 + 12 * Z.of_nat i + 4)
      in * by lia.
    apply IH; try assumption; try lia. split; lia.
Qed.

(** X5: the decoder seeks to every child offset while it reads a [PDIR]
    record, although it reads no child: a directory with a child offset
    that the file does not accept, the offsets before it being accepted,
    cannot be decoded.  Resolving it raises [ValueError] when the offset is
    2^63 or more and [OSError] otherwise. *)
Theorem unseekable_child_offset_fails_directory (data : list byte) (q : nat)
  (p : Z) (name : pystr) (i : nat) :
  let slots := pdir_slots data p in
  let bad := u64_at data (slots + 12 * Z.of_nat i + 4) in
  seekable max_offset p ->
  tag_at data p = tag_PDIR ->
  0 <= i32_at data (p + 8) ->
  _decode_str host (slice data (p + 48) (2 * i32_at data (p + 8))) = Ok name ->
  Z.of_nat i < pdir_childcount data p ->
  slots + 12 * (Z.of_nat i + 1) <= len data ->
  seekable max_offset (slots + 12 * (Z.of_nat i + 1)) ->
  Forall (seekable max_offset) (child_offsets data slots i) ->
  ~ seekable max_offset bad ->
  fst (ChildPointer_read host max_offset (mkChildPointer p) (mkfile data q false))
  = Raise (seek_refusal bad).
Proof.
  intros slots bad Hs Ht Hn Hd Hi Hl He Hc Hbad.
  pose proof Hs as [Hs1 Hs2]. pose proof He as [He1 He2].
  pose proof (i32_at_range data (p + 8)) as Hns.
  assert (Hslots : slots = p + 48 + 2 * i32_at data (p + 8)) by reflexivity.
  unfold ChildPointer_read. cbn [cp_where].
  unfold bind at 1. rewrite seek_at by assumption. cbv beta iota.
  rewrite read_entry_header by lia. cbv zeta.
  rewrite Ht. change (bytes_eqb tag_PDIR tag_PDIR) with true. cbv iota.
  unfold bind at 1. unfold _read_pdir.
  unfold bind at 1. unfold _pdir_info_struct_size.
  rewrite read_struct_at by lia. cbv beta iota zeta.
  unfold _pdir_info_unpack. cbn [fst snd]. rewrite !slice_slice by lia.
  replace (p + 8 + 0) with (p + 8) by lia.
  replace (p + 8 + 4) with (p + 12) by lia.
  fold (i32_at data (p + 8)) (u32_at data (p + 12)).
  unfold bind at 1. rewrite seek_cur_at by lia. cbv beta iota.
  unfold bind at 1. rewrite read_at by lia. cbv beta iota.
  replace (p + 8 + 8 + 32) with (p + 48) by lia.
  replace (i32_at data (p + 8) * 2) with (2 * i32_at data (p + 8)) by lia.
  rewrite Hd.
  pose proof (slice_length data (p + 48) (2 * i32_at data (p + 8))) as Hsl.
  replace (Z.to_nat (p + 48) + length (slice data (p + 48) (2 * i32_at data (p + 8))))%nat
    with (Z.to_nat slots) by lia.
  unfold bind at 1.
  pose proof (read_pdir_children_refused data (Z.to_nat (u32_at data (p + 12)))
                slots [] i) as R.
  unfold pdir_childcount in Hi.
  destruct (_read_pdir_children max_offset (Z.to_nat (u32_at data (p + 12))) []
              (mkfile data (Z.to_nat slots) false)) as [[cs|e] fd1];
    cbn [fst] in R |- *.
  - assert (Ok cs = Raise (seek_refusal bad)) as X
        by (apply R; assumption || lia).
    discriminate X.
  - assert (@Raise (list ChildPointer) e = Raise (seek_refusal bad)) as X
        by (apply R; assumption || lia).
    injection X as ->. reflexivity.
Qed.

(** The results of iterating are those of resolving the children one by
    one from the state the iteration starts in. *)
Lemma iter_from_Forall2 (children : list ChildPointer) :
  forall (fd : fileobj) (rs : list (option entry)),
  fst (DirectoryEntry_iter_from host max_offset children fd) = Ok rs
  <-> Forall2 (fun c r => fst (ChildPointer_read host max_offset c fd) = Ok r)
        children rs.
Proof.
  induction children as [|c rest IH]; intros fd rs;
    cbn [DirectoryEntry_iter_from].
  - unfold ret. cbn [fst]. split.
    + intros H; injection H as <-. constructor.
    + intros H; inversion H. reflexivity.
  - unfold bind at 1.
    pose proof (preserves_ChildPointer_read host max_offset c fd) as P.
    destruct (ChildPointer_read host max_offset c fd) as [[e|x] fd1] eqn:E;
      cbn [snd] in P.
    + assert (Hsame : forall c' r,
                 fst (ChildPointer_read host max_offset c' fd1) = Ok r
                 <-> fst (ChildPointer_read host max_offset c' fd) = Ok r).
      { intros c' r.
        rewrite (ChildPointer_read_same_source host max_offset c' fd fd1 P).
        reflexivity. }
      unfold bind. specialize (IH fd1).
      destruct (DirectoryEntry_iter_from host max_offset rest fd1)
        as [[es|x] fd2]; cbn [fst] in *.
      * unfold ret. cbn [fst]. split.
        -- intros H; injection H as <-. constructor; [rewrite E; reflexivity|].
           eapply Forall2_impl; [|apply (proj1 (IH es) eq_refl)].
           intros c' r Hr. apply Hsame. exact Hr.
        -- intros H. inversion H as [|c0 r0 l0 rs0 Hr Hrest]; subst.
           rewrite E in Hr. cbn [fst] in Hr. injection Hr as <-.
           assert (Hes : Ok es = Ok rs0).
           { apply IH. eapply Forall2_impl; [|exact Hrest].
             intros c' r Hr'. apply Hsame. exact Hr'. }
           injection Hes as <-. reflexivity.
      * split; [discriminate|].
        intros H. inversion H as [|c0 r0 l0 rs0 Hr Hrest]; subst.
        assert (Hes : @Raise (list (option entry)) x = Ok rs0).
        { apply IH. eapply Forall2_impl; [|exact Hrest].
          intros c' r Hr'. apply Hsame. exact Hr'. }
        discriminate Hes.
    + cbn [fst]. split; [discriminate|].
      intros H. inversion H as [|c0 r0 l0 rs0 Hr Hrest]; subst.
      rewrite E in Hr. cbn [fst] in Hr. discriminate Hr.
Qed.

(** X6: iterating a directory returns a sequence exactly when every child
    resolves, and the sequence then holds the result of each child in the
    order of the children: as many values as children, [None] for a freed
    slot included, nothing filtered out. *)
Theorem iteration_yields_each_child_in_order (name : pystr)
  (children : list ChildPointer) (fd : fileobj) (rs : list (option entry)) :
  (fst (DirectoryEntry_iter host max_offset (DirectoryEntry name children) fd)
   = Ok rs
   <-> Forall2 (fun c r => fst (ChildPointer_read host max_offset c fd) = Ok r)
         children rs)
  /\ (fst (DirectoryEntry_iter host max_offset (DirectoryEntry name children) fd)
      = Ok rs ->
      length rs = length children).
Proof.
  cbn [DirectoryEntry_iter]. split; [apply iter_from_Forall2|].
  intros H. apply iter_from_Forall2 in H.
  symmetry. eapply Forall2_length. exact H.
Qed.

End Directories.

(** ** Names *)

Lemma lstrip_nul_spec (s : pystr) :
  (exists k, s = repeat 0 k ++ lstrip_nul s) /\ hd 1 (lstrip_nul s) <> 0.
Proof.
  induction s as [|c tl [[k Hk] Hh]]; cbn [lstrip_nul].
  - split; [exists 0%nat; reflexivity | cbn; lia].
  - destruct (Z.eqb_spec c 0) as [->|Hc].
    + split; [|exact Hh]. exists (S k). cbn [repeat app]. congruence.
    + split; [exists 0%nat; reflexivity | cbn; exact Hc].
Qed.

Lemma last_rev (l : pystr) (d : Z) : last (rev l) d = hd d l.
Proof.
  destruct l as [|a l]; [reflexivity|]. cbn [rev hd]. apply last_last.
Qed.

Lemma rev_repeat (k : nat) : rev (repeat 0 k) = repeat 0 k.
Proof.
  induction k as [|k IH]; [reflexivity|].
  cbn [repeat rev]. rewrite IH. symmetry. apply repeat_cons.
Qed.

(** What [rstrip('\x00')] leaves: the text without its trailing NULs. *)
Lemma rstrip_nul_spec (s : pystr) :
  (exists k, s = rstrip_nul s ++ repeat 0 k) /\ last (rstrip_nul s) 1 <> 0.
Proof.
  unfold rstrip_nul.
  destruct (lstrip_nul_spec (rev s)) as [[k Hk] Hh]. split.
  - exists k. rewrite <- (rev_involutive s) at 1. rewrite Hk at 1.
    rewrite rev_app_distr, rev_repeat. reflexivity.
  - rewrite last_rev. exact Hh.
Qed.

Section Names.

Variable host : byteorder.
Variable max_offset : Z.

Lemma read_file_name (nextoffs : Z) (fd fd' : fileobj) (e : entry) :
  _read_file host max_offset nextoffs fd = (Ok e, fd') ->
  last (entry_name e) 1 <> 0.
Proof.
  unfold _read_file, bind, ret, throw. intros H.
  destruct (_read_struct _file_info_struct_size _file_info_unpack fd)
    as [[ns|x] f1]; [|discriminate].
  destruct (seek_cur max_offset 32 f1) as [[o|x] f2]; [|discriminate].
  destruct (read (ns * 2) f2) as [[raw|x] f3]; [|discriminate].
  destruct (_decode_str host raw) as [s|x]; [|discriminate].
  destruct (tell f3) as [[o'|x] f4]; [|discriminate].
  injection H as <- _. apply rstrip_nul_spec.
Qed.

Lemma read_pdir_name (fd fd' : fileobj) (e : entry) :
  _read_pdir host max_offset fd = (Ok e, fd') ->
  last (entry_name e) 1 <> 0.
Proof.
  unfold _read_pdir, bind, ret, throw. intros H.
  destruct (_read_struct _pdir_info_struct_size _pdir_info_unpack fd)
    as [[info|x] f1]; [|discriminate].
  destruct (seek_cur max_offset 32 f1) as [[o|x] f2]; [|discriminate].
  destruct (read (fst info * 2) f2) as [[raw|x] f3]; [|discriminate].
  destruct (_decode_str host raw) as [s|x]; [|discriminate].
  destruct (_read_pdir_children max_offset (Z.to_nat (snd info)) [] f3)
    as [[cs|x] f4]; [|discriminate].
  injection H as <- _. apply rstrip_nul_spec.
Qed.

(** X7: no entry the decoder returns has a name that ends in a NUL
    character: whatever the bytes of the archive, the name of a resolved
    directory or file entry is empty or ends in another character. *)
Theorem entry_names_have_no_trailing_nul (c : ChildPointer) (fd : fileobj)
  (e : entry) :
  fst (ChildPointer_read host max_offset c fd) = Ok (Some e) ->
  last (entry_name e) 1 <> 0.
Proof.
  unfold ChildPointer_read, _read_entry, bind, ret. intros H.
  destruct (seek max_offset (cp_where c) fd) as [[o|x] f1];
    [|discriminate].
  destruct (tell f1) as [[cur|x] f2]; [|discriminate].
  destruct (_read_struct _entry_struct_size _entry_unpack f2)
    as [[hd|x] f3]; [|discriminate].
  cbv zeta in H.
  destruct (bytes_eqb (snd hd) tag_PDIR).
  { destruct (_read_pdir host max_offset f3) as [[d|x] f4] eqn:E;
      [|discriminate].
    cbn [fst] in H. injection H as <-. eapply read_pdir_name; exact E. }
  destruct (bytes_eqb (snd hd) tag_FILE).
  { destruct (_read_file host max_offset (cur + fst hd) f3) as [[d|x] f4] eqn:E;
      [|discriminate].
    cbn [fst] in H. injection H as <-. eapply read_file_name; exact E. }
  destruct (bytes_eqb (snd hd) tag_FREE); discriminate.
Qed.

End Names.

(** ** Records written little-endian are read back *)

Lemma byte_val_byte_of_Z (z : Z) : byte_val (byte_of_Z z) = z mod 256.
Proof.
  unfold byte_val, byte_of_Z.
  pose proof (Z.mod_pos_bound z 256 ltac:(lia)) as Hm.
  pose proof (Byte.to_of_N_option_map (Z.to_N (z mod 256))) as H.
  replace (N.leb (Z.to_N (z mod 256)) 255) with true in H
    by (symmetry; apply N.leb_le; lia).
  destruct (Byte.of_N (Z.to_N (z mod 256))) as [b|]; [|discriminate].
  cbn [option_map] in H. injection H as ->. lia.
Qed.

Lemma le_uint_le_bytes (n : nat) :
  forall z, 0 <= z < 256 ^ Z.of_nat n -> le_uint (le_bytes n z) = z.
Proof.
  induction n as [|n IH]; intros z Hz.
  - cbn in *. lia.
  - cbn [le_bytes le_uint]. rewrite byte_val_byte_of_Z.
    rewrite Nat2Z.inj_succ, Z.pow_succ_r in Hz by lia.
    rewrite IH.
    + pose proof (Z.div_mod z 256 ltac:(lia)). lia.
    + split; [apply Z.div_pos; lia | apply Z.div_lt_upper_bound; lia].
Qed.

Lemma length_le_bytes (n : nat) : forall z, length (le_bytes n z) = n.
Proof.
  induction n as [|n IH]; intros z; cbn [le_bytes length]; congruence.
Qed.

Lemma len_app (a b : list byte) : len (a ++ b) = len a + len b.
Proof. unfold len. rewrite length_app. lia. Qed.

Lemma len_le_bytes (n : nat) (z : Z) : len (le_bytes n z) = Z.of_nat n.
Proof. unfold len. rewrite length_le_bytes. reflexivity. Qed.

(** The bytes of a segment, cut out of the file that holds it. *)
Lemma slice_segment (a b c : list byte) (off n : Z) :
  off = len a -> n = len b -> slice (a ++ b ++ c) off n = b.
Proof.
  intros -> ->. unfold slice, len. rewrite !Nat2Z.id.
  rewrite skipn_app, skipn_all, Nat.sub_diag. cbn [app skipn].
  rewrite firstn_app, firstn_all, Nat.sub_diag. cbn [firstn].
  apply app_nil_r.
Qed.

Lemma header_layout (version root : Z) (ident rest : list byte) :
  let data := header_bytes version ident root ++ rest in
  0 <= version < 2 ^ 32 -> 0 <= root < 2 ^ 64 -> len ident = 4 ->
  u32_at data 0 = version /\ slice data 4 4 = ident /\ u64_at data 12 = root
  /\ 28 <= len data.
Proof.
  intros data Hv Hr Hi. unfold data, header_bytes.
  split; [|split; [|split]].
  - unfold u32_at.
    rewrite <- (app_nil_l ((le_bytes 4 version ++ _) ++ rest)).
    rewrite <- !app_assoc.
    rewrite slice_segment by (rewrite ?len_le_bytes; reflexivity).
    apply le_uint_le_bytes. exact Hv.
  - rewrite <- !app_assoc.
    rewrite slice_segment by (rewrite ?len_le_bytes; lia). reflexivity.
  - unfold u64_at.
    replace ((le_bytes 4 version ++ ident ++ le_bytes 4 0 ++ le_bytes 8 root
              ++ le_bytes 8 0) ++ rest)
      with ((le_bytes 4 version ++ ident ++ le_bytes 4 0)
              ++ le_bytes 8 root ++ (le_bytes 8 0 ++ rest))
      by (rewrite <- !app_assoc; reflexivity).
    rewrite slice_segment by (rewrite ?len_app, ?len_le_bytes; lia).
    apply le_uint_le_bytes. exact Hr.
  - rewrite !len_app, !len_le_bytes. unfold len in *. lia.
Qed.

Lemma file_record_layout (pre post name payload : list byte) (nextoffs ns : Z) :
  let data := pre ++ file_record_bytes nextoffs ns name payload ++ post in
  let p := len pre in
  0 <= nextoffs < 2 ^ 32 -> 0 <= ns < 2 ^ 31 ->
  u32_at data p = nextoffs
  /\ tag_at data p = tag_FILE
  /\ i32_at data (p + 8) = ns
  /\ slice data (p + 44) (len name) = name
  /\ slice data (p + 44 + len name) (len payload) = payload
  /\ len data = p + 44 + len name + len payload + len post.
Proof.
  intros data p Hn Hs.
  assert (Hz : len (zeros 32) = 32) by reflexivity.
  assert (Ht : len tag_FILE = 4) by reflexivity.
  assert (E : data = pre ++ le_bytes 4 nextoffs ++ tag_FILE ++ le_bytes 4 ns
                       ++ zeros 32 ++ name ++ payload ++ post).
  { unfold data, file_record_bytes, entry_header_bytes.
    rewrite <- !app_assoc. reflexivity. }
  split; [|split; [|split; [|split; [|split]]]].
  - unfold u32_at. rewrite E.
    rewrite slice_segment by (rewrite ?len_le_bytes; reflexivity).
    apply le_uint_le_bytes. exact Hn.
  - unfold tag_at. rewrite E.
    rewrite (app_assoc pre).
    rewrite slice_segment by (rewrite ?len_app, ?len_le_bytes; fold p; lia).
    reflexivity.
  - unfold i32_at, le_int32. rewrite E.
    rewrite (app_assoc pre), (app_assoc (pre ++ _)).
    rewrite slice_segment by (rewrite ?len_app, ?len_le_bytes; fold p; lia).
    rewrite le_uint_le_bytes by (change (256 ^ Z.of_nat 4) with (2 ^ 32); lia).
    rewrite ltb_true by lia. reflexivity.
  - rewrite E.
    rewrite (app_assoc pre), (app_assoc (pre ++ _)), (app_assoc ((pre ++ _) ++ _)),
      (app_assoc (((pre ++ _) ++ _) ++ _)).
    apply slice_segment; [|reflexivity].
    rewrite !len_app, !len_le_bytes. fold p. lia.
  - rewrite E.
    rewrite (app_assoc pre), (app_assoc (pre ++ _)), (app_assoc ((pre ++ _) ++ _)),
      (app_assoc (((pre ++ _) ++ _) ++ _)), (app_assoc ((((pre ++ _) ++ _) ++ _) ++ _)).
    apply slice_segment; [|reflexivity].
    rewrite !len_app, !len_le_bytes. fold p. lia.
  - rewrite E. rewrite !len_app, !len_le_bytes. fold p. lia.
Qed.

Section RoundTrip.

Variable host : byteorder.
Variable max_offset : Z.

(** X8: the header of a file that starts with the little-endian layout
    version (4 bytes), identifier (4 bytes), 4 unused bytes, root offset
    (8 bytes), 8 unused bytes is read back as that version, identifier and
    root offset, whatever follows, and the reader is left at byte 28. *)
Theorem header_round_trip (version root : Z) (ident rest : list byte) :
  0 <= version < 2 ^ 32 -> 0 <= root < 2 ^ 64 -> len ident = 4 ->
  FileHeader_read (mkfile (header_bytes version ident root ++ rest) 0 false)
  = (Ok (mkFileHeader version ident root),
     mkfile (header_bytes version ident root ++ rest) 28 false).
Proof.
  intros Hv Hr Hi.
  destruct (header_layout version root ident rest Hv Hr Hi) as (E1 & E2 & E3 & E4).
  rewrite header_read_full by exact E4. rewrite E1, E2, E3. reflexivity.
Qed.

(** X9: a [FILE] record written anywhere in a file, with its name in
    UTF-16 and the distance to the next record equal to its own size, is
    read back whole: resolving a pointer to it gives the decoded name and
    the extent of the payload, and extracting that entry returns the
    payload, byte for byte. *)
Theorem file_record_round_trip (self : File) (pre post name payload : list byte)
  (ns : Z) (s : pystr) (q : nat) :
  let data := pre ++ file_record_bytes (44 + len name + len payload) ns name payload
                ++ post in
  let p := len pre in
  let e := FileEntry (rstrip_nul s) (p + 44 + len name, len payload) in
  let fd := mkfile data (Z.to_nat (p + 44 + len name)) false in
  0 <= ns < 2 ^ 31 -> len name = 2 * ns ->
  44 + len name + len payload < 2 ^ 32 ->
  seekable max_offset (p + 44 + len name) ->
  _decode_str host name = Ok s ->
  ChildPointer_read host max_offset (mkChildPointer p) (mkfile data q false)
  = (Ok (Some e), fd)
  /\ fst (File_extract max_offset self e fd) = Ok payload.
Proof.
  intros data p e fd Hns Hname Hsize [Hs1 Hs2] Hd.
  assert (Hp : 0 <= p) by (unfold p, len; lia).
  assert (Hpl : 0 <= len payload) by (unfold len; lia).
  assert (Hnl : 0 <= len name) by (unfold len; lia).
  assert (Hol : 0 <= len post) by (unfold len; lia).
  destruct (file_record_layout pre post name payload
              (44 + len name + len payload) ns ltac:(lia) Hns)
    as (E1 & E2 & E3 & E4 & E5 & E6).
  fold data p in E1, E2, E3, E4, E5, E6.
  assert (Hstart : file_data_start data p = p + 44 + len name).
  { unfold file_data_start. rewrite E3, <- Hname, E4. reflexivity. }
  split.
  - pose proof (resolve_FILE host max_offset data q p s) as R.
    cbv zeta in R. rewrite E3, <- Hname, E4, E1 in R.
    assert (Hlen : p + 12 <= len data) by lia.
    rewrite R; try assumption; try lia; try (split; lia).
    unfold e, fd.
    replace (p + (44 + len name + len payload) - (p + 44 + len name))
      with (len payload) by lia.
    reflexivity.
  - unfold e, fd, File_extract, bind.
    rewrite seek_at by (split; lia).
    rewrite read_at by lia. cbn [fst]. rewrite E5. reflexivity.
Qed.

End RoundTrip.

(** * Further properties of diff.py *)

(** ** The comparison loop *)

Lemma compare_loop_step (bufsize : Z) (fd1 fd2 : fileobj) :
  compare_loop bufsize fd1 fd2
  = match read bufsize fd1 with
    | (Raise e, _) => Raise e
    | (Ok chunk1, fd1') =>
        match read bufsize fd2 with
        | (Raise e, _) => Raise e
        | (Ok chunk2, fd2') =>
            if negb (bytes_eqb chunk1 chunk2) then Ok Modified
            else if is_empty chunk1 && is_empty chunk2 then Ok Same
            else compare_loop bufsize fd1' fd2'
        end
    end.
Proof.
  funelim (compare_loop bufsize fd1 fd2);
    repeat match goal with
           | H : ?x = (_, _) |- context [?x] => rewrite H
           | H : ?x = true |- context [?x] => rewrite H
           | H : ?x = false |- context [?x] => rewrite H
           end; cbn [negb]; reflexivity.
Qed.

(** A read on an open file, in terms of the bytes not yet read. *)
Lemma read_open (n : Z) (fd : fileobj) :
  0 <= n < 2 ^ 63 - 33 -> closed fd = false ->
  exists fd',
    read n fd = (Ok (firstn (Z.to_nat n) (unread fd)), fd')
    /\ unread fd' = skipn (Z.to_nat n) (unread fd)
    /\ closed fd' = false.
Proof.
  intros Hn Hc. unfold read. rewrite fits_ssize_true by lia.
  rewrite (ltb_false n (-1)) by lia. rewrite Hc.
  rewrite (leb_false (2 ^ 63 - 33) n) by lia.
  rewrite (eqb_false n (-1)) by lia.
  eexists. split; [reflexivity|]. split; [|exact Hc].
  unfold unread, set_pos. cbn [pos content].
  rewrite Nat.add_comm, <- skipn_skipn.
  set (r := skipn (pos fd) (content fd)).
  rewrite length_firstn.
  destruct (Nat.le_ge_cases (Z.to_nat n) (length r)) as [H|H].
  - rewrite Nat.min_l by exact H. reflexivity.
  - rewrite Nat.min_r by exact H.
    rewrite skipn_all. symmetry. apply skipn_all2. exact H.
Qed.

Lemma read_rest_open (fd : fileobj) :
  closed fd = false ->
  exists fd',
    read (-1) fd = (Ok (unread fd), fd')
    /\ unread fd' = []
    /\ closed fd' = false.
Proof.
  intros Hc. unfold read. cbn [fits_ssize]. rewrite Hc.
  eexists. split; [reflexivity|]. split; [|exact Hc].
  unfold unread, set_pos. cbn [pos content].
  rewrite Nat.add_comm, <- skipn_skipn. apply skipn_all.
Qed.

Lemma bytes_eqb_refl (a : list byte) : bytes_eqb a a = true.
Proof. apply bytes_eqb_eq. reflexivity. Qed.

Lemma bytes_eqb_split (n : nat) (a b : list byte) :
  firstn n a = firstn n b ->
  bytes_eqb a b = bytes_eqb (skipn n a) (skipn n b).
Proof.
  intros Hf. unfold bytes_eqb.
  destruct (list_eq_dec byte_eq_dec a b) as [E|E];
    destruct (list_eq_dec byte_eq_dec (skipn n a) (skipn n b)) as [E'|E'];
    try reflexivity.
  - subst b. contradiction.
  - exfalso. apply E.
    rewrite <- (firstn_skipn n a), <- (firstn_skipn n b). congruence.
Qed.

Lemma is_empty_nil (a : list byte) : is_empty a = true <-> a = [].
Proof. destruct a; cbn; split; congruence. Qed.

Lemma firstn_nil_inv (n : nat) (a : list byte) :
  (0 < n)%nat -> firstn n a = [] -> a = [].
Proof.
  intros Hn H. destruct n; [lia|]. destruct a; [reflexivity | discriminate].
Qed.

(** With a positive buffer size the loop decides whether the unread bytes
    of the two files are the same. *)
Lemma compare_loop_positive (bufsize : Z) (k : nat) :
  0 < bufsize < 2 ^ 63 - 33 ->
  forall fd1 fd2,
  (length (unread fd1) <= k)%nat ->
  closed fd1 = false -> closed fd2 = false ->
  compare_loop bufsize fd1 fd2
  = Ok (if bytes_eqb (unread fd1) (unread fd2) then Same else Modified).
Proof.
  intros Hb. induction k as [|k IH]; intros fd1 fd2 Hk H1 H2;
    rewrite compare_loop_step;
    destruct (read_open bufsize fd1 ltac:(lia) H1) as (fd1' & R1 & U1 & C1);
    destruct (read_open bufsize fd2 ltac:(lia) H2) as (fd2' & R2 & U2 & C2);
    rewrite R1, R2;
    set (n := Z.to_nat bufsize) in *;
    assert (Hn : (0 < n)%nat) by (unfold n; lia);
    destruct (bytes_eqb (firstn n (unread fd1)) (firstn n (unread fd2))) eqn:E;
    cbn [negb].
  - apply bytes_eqb_eq in E.
    assert (unread fd1 = []) as Z1 by (destruct (unread fd1); [reflexivity | cbn in Hk; lia]).
    rewrite Z1 in *. rewrite firstn_nil in E. symmetry in E.
    apply firstn_nil_inv in E; [|exact Hn]. rewrite E.
    rewrite !firstn_nil. reflexivity.
  - rewrite (bytes_eqb_neq (unread fd1) (unread fd2)); [reflexivity|].
    intros X. rewrite X, bytes_eqb_refl in E. discriminate.
  - apply bytes_eqb_eq in E.
    rewrite (bytes_eqb_split n _ _ E).
    destruct (is_empty (firstn n (unread fd1)) && is_empty (firstn n (unread fd2)))
      eqn:Em.
    + apply andb_prop in Em. destruct Em as [Em1 Em2].
      apply is_empty_nil in Em1, Em2.
      apply firstn_nil_inv in Em1, Em2; try exact Hn.
      rewrite Em1, Em2. rewrite !skipn_nil. reflexivity.
    + rewrite IH; [rewrite U1, U2; reflexivity | | exact C1 | exact C2].
      rewrite U1, length_skipn.
      assert (unread fd1 <> []) as Hne.
      { intros X. rewrite X in E, Em. rewrite firstn_nil in E, Em.
        rewrite <- E in Em. discriminate Em. }
      destruct (unread fd1); [congruence | cbn [length] in *; lia].
  - rewrite (bytes_eqb_neq (unread fd1) (unread fd2)); [reflexivity|].
    intros X. rewrite X, bytes_eqb_refl in E. discriminate.
Qed.

(** Buffer size -1: each file is read in one piece. *)
Lemma compare_loop_unbounded (fd1 fd2 : fileobj) :
  closed fd1 = false -> closed fd2 = false ->
  compare_loop (-1) fd1 fd2
  = Ok (if bytes_eqb (unread fd1) (unread fd2) then Same else Modified).
Proof.
  intros H1 H2. rewrite compare_loop_step.
  destruct (read_rest_open fd1 H1) as (fd1' & R1 & U1 & C1).
  destruct (read_rest_open fd2 H2) as (fd2' & R2 & U2 & C2).
  rewrite R1, R2.
  destruct (bytes_eqb (unread fd1) (unread fd2)) eqn:E; cbn [negb];
    [|reflexivity].
  destruct (is_empty (unread fd1) && is_empty (unread fd2)); [reflexivity|].
  rewrite compare_loop_step.
  destruct (read_rest_open fd1' C1) as (g1 & S1 & _ & _).
  destruct (read_rest_open fd2' C2) as (g2 & S2 & _ & _).
  rewrite S1, S2, U1, U2. reflexivity.
Qed.

(** Buffer size 0: both reads return nothing and the loop ends at once. *)
Lemma compare_loop_zero (fd1 fd2 : fileobj) :
  closed fd1 = false -> closed fd2 = false ->
  compare_loop 0 fd1 fd2 = Ok Same.
Proof.
  intros H1 H2. rewrite compare_loop_step.
  unfold read. cbn [fits_ssize]. rewrite H1, H2. reflexivity.
Qed.

(** ** [compare] *)

(** X10: for two regular files and a buffer size that is -1 or from 1 to
    2^32 - 1, [compare] returns [Same] when the files hold the same bytes
    and [Modified] when they do not; it returns neither [New] nor [Deleted]
    and raises nothing. *)
Theorem compare_decides_equal_content (fsys : node) (f1 f2 : string)
  (c1 c2 : list byte) (bufsize : Z) :
  lookup fsys f1 = Found (Reg c1) ->
  lookup fsys f2 = Found (Reg c2) ->
  0 < bufsize < 2 ^ 32 \/ bufsize = -1 ->
  (c1 = c2 -> compare fsys f1 f2 bufsize = Ok Same)
  /\ (c1 <> c2 -> compare fsys f1 f2 bufsize = Ok Modified).
Proof.
  intros L1 L2 Hb.
  assert (E : compare fsys f1 f2 bufsize
              = Ok (if bytes_eqb c1 c2 then Same else Modified)).
  { unfold compare, os_path_exists, os_path_getsize, open_rb.
    rewrite L1, L2. cbn [negb andb result_bind].
    destruct (Z.eqb_spec (Z.of_nat (length c1)) (Z.of_nat (length c2))) as [Hl|Hl];
      cbn [negb].
    - destruct Hb as [Hb| ->].
      + rewrite (compare_loop_positive bufsize (length c1) ltac:(lia));
          reflexivity.
      + rewrite compare_loop_unbounded by reflexivity. reflexivity.
    - rewrite bytes_eqb_neq; [reflexivity|]. intros ->. apply Hl. reflexivity. }
  rewrite E. split.
  - intros ->. rewrite bytes_eqb_refl. reflexivity.
  - intros Hne. rewrite bytes_eqb_neq by exact Hne. reflexivity.
Qed.

(** X11: the buffer size is not validated.  For two regular files of the
    same size, buffer size 0 makes [compare] return [Same] whatever the
    files hold, a buffer size from -2^63 to -2 makes it raise [ValueError],
    and one below -2^63 or of 2^63 - 33 or more makes it raise
    [OverflowError]. *)
Theorem compare_degenerate_buffer_sizes (fsys : node) (f1 f2 : string)
  (c1 c2 : list byte) (bufsize : Z) :
  lookup fsys f1 = Found (Reg c1) ->
  lookup fsys f2 = Found (Reg c2) ->
  length c1 = length c2 ->
  (bufsize = 0 -> compare fsys f1 f2 bufsize = Ok Same)
  /\ (- 2 ^ 63 <= bufsize < -1 -> compare fsys f1 f2 bufsize = Raise ValueError)
  /\ (bufsize < - 2 ^ 63 -> compare fsys f1 f2 bufsize = Raise OverflowError)
  /\ (2 ^ 63 - 33 <= bufsize -> compare fsys f1 f2 bufsize = Raise OverflowError).
Proof.
  intros L1 L2 Hl.
  assert (E : compare fsys f1 f2 bufsize
              = compare_loop bufsize (mkfile c1 0 false) (mkfile c2 0 false)).
  { unfold compare, os_path_exists, os_path_getsize, open_rb.
    rewrite L1, L2. cbn [negb andb result_bind].
    rewrite Hl, Z.eqb_refl. reflexivity. }
  rewrite E. split; [|split; [|split]]; intros Hb.
  - subst bufsize. apply compare_loop_zero; reflexivity.
  - rewrite compare_loop_step, read_negative by lia. reflexivity.
  - rewrite compare_loop_step, read_overflow; [reflexivity | lia | reflexivity].
  - rewrite compare_loop_step, read_overflow; [reflexivity | lia | reflexivity].
Qed.

(** ** [write_summary_item] *)

Lemma max_by_len_longest (vals : list string) :
  forall best x, x = best \/ In x vals ->
  (String.length x <= String.length (max_by_len best vals))%nat.
Proof.
  induction vals as [|v tl IH]; intros best x Hx; cbn [max_by_len].
  - destruct Hx as [->|[]]. lia.
  - destruct (Nat.ltb_spec (String.length best) (String.length v)) as [Hlt|Hge].
    + destruct Hx as [->|[->|Hin]].
      * pose proof (IH v v (or_introl eq_refl)). lia.
      * apply IH. left. reflexivity.
      * apply IH. right. exact Hin.
    + destruct Hx as [->|[->|Hin]].
      * apply IH. left. reflexivity.
      * pose proof (IH best best (or_introl eq_refl)). lia.
      * apply IH. right. exact Hin.
Qed.

Lemma dict_get_In (d : list (Z * string)) (k : Z) (v : string) :
  dict_get d k = Ok v -> In v (map snd d).
Proof.
  induction d as [|[k' v'] tl IH]; cbn [dict_get map snd]; [discriminate|].
  destruct (k' =? k).
  - intros H; injection H as ->. left. reflexivity.
  - intros H. right. apply IH. exact H.
Qed.

Lemma max_by_len_In (vals : list string) :
  forall best, max_by_len best vals = best \/ In (max_by_len best vals) vals.
Proof.
  induction vals as [|v tl IH]; intros best; cbn [max_by_len]; [left; reflexivity|].
  destruct (String.length best <? String.length v)%nat.
  - right. destruct (IH v) as [->|H]; [left; reflexivity | right; exact H].
  - destruct (IH best) as [->|H]; [left; reflexivity | right; right; exact H].
Qed.

Lemma length_append_s (a b : string) :
  String.length (a ++ b) = (String.length a + String.length b)%nat.
Proof. induction a as [|x a IH]; cbn; [reflexivity | rewrite IH; reflexivity]. Qed.

Lemma length_spaces (n : nat) : String.length (spaces n) = n.
Proof. induction n as [|n IH]; cbn; [reflexivity | rewrite IH; reflexivity]. Qed.

(** X12: the column [kind_width kind_text] is one more than the length of
    the longest text of [kind_text].  For a kind that [kind_text] knows,
    [write_summary_item] returns as many sinks as it was given, in the same
    order: a [None] stays [None], and every other sink has one line more at
    its end, the same for all of them: the text of the kind, then at least
    one space, as many as bring the text to the column, then the item and
    a newline.  The column is the same for every kind, so the items of all
    lines are aligned. *)
Theorem summary_lines_are_aligned (kind_text : list (Z * string)) (kind : Z)
  (item label : string) (files : list sink) :
  dict_get kind_text kind = Ok label ->
  (forall v, In v (map snd kind_text) ->
             (String.length v < kind_width kind_text)%nat)
  /\ (exists v, In v (map snd kind_text)
                /\ kind_width kind_text = (String.length v + 1)%nat)
  /\ exists (pad : nat) (files' : list sink),
       write_summary_item kind_text kind item files = Ok files'
       /\ (0 < pad)%nat
       /\ String.length (label ++ spaces pad) = kind_width kind_text
       /\ length files' = length files
       /\ forall i : nat,
            nth_error files' i
            = match nth_error files i with
              | None => None
              | Some None => Some None
              | Some (Some written) =>
                  Some (Some (written
                              ++ [(label ++ spaces pad ++ item ++ newline)%string]))
              end.
Proof.
  intros Hg. pose proof (dict_get_In _ _ _ Hg) as Hin.
  unfold write_summary_item, kind_width.
  destruct (map snd kind_text) as [|v vals]; [destruct Hin|].
  cbn [result_bind]. rewrite Hg. cbn [result_bind].
  set (W := (String.length (max_by_len v vals) + 1)%nat).
  assert (Hlong : forall x, In x (v :: vals) -> (String.length x < W)%nat).
  { intros x Hx.
    assert (String.length x <= String.length (max_by_len v vals))%nat.
    { apply max_by_len_longest. destruct Hx as [->|Hx]; [left|right]; auto. }
    unfold W. lia. }
  split; [exact Hlong|]. split.
  { exists (max_by_len v vals). split; [|reflexivity].
    destruct (max_by_len_In vals v) as [->|H]; [left; reflexivity | right; exact H]. }
  pose proof (Hlong label Hin) as Hlabel.
  exists (W - String.length label)%nat. eexists. split; [reflexivity|].
  split; [lia|]. split.
  { rewrite length_append_s, length_spaces. lia. }
  split; [apply length_map|].
  intros i. rewrite nth_error_map.
  destruct (nth_error files i) as [[written|]|]; reflexivity.
Qed.

(** ** [diff] *)

(** What the loop writes to the first sink does not depend on the second,
    and a second sink that is a file receives the same lines. *)
Lemma diff_loop_two_sinks (fsys : node) (d1 d2 : string) (bufsize : Z)
  (kind_text : list (Z * string)) (t2 : list string) :
  forall out : list string,
  exists lines,
    diff_loop fsys d1 d2 bufsize kind_text t2 [Some out; None]
    = (fst (diff_loop fsys d1 d2 bufsize kind_text t2 [Some out; None]),
       [Some (out ++ lines); None])
    /\ diff_loop fsys d1 d2 bufsize kind_text t2 [Some out; Some out]
       = (fst (diff_loop fsys d1 d2 bufsize kind_text t2 [Some out; None]),
          [Some (out ++ lines); Some (out ++ lines)]).
Proof.
  induction t2 as [|f tl IH]; intros out; cbn [diff_loop].
  - exists []. rewrite app_nil_r. split; reflexivity.
  - destruct (compare fsys (os_path_join d1 f) (os_path_join d2 f) bufsize)
      as [result|e].
    2:{ exists []. rewrite app_nil_r. split; reflexivity. }
    destruct (negb (result =? Same)).
    2:{ apply IH. }
    unfold write_summary_item.
    destruct (match map snd kind_text with
              | [] => Raise ValueError
              | v :: vals => Ok (String.length (max_by_len v vals) + 1)%nat
              end) as [width|e]; cbn [result_bind].
    2:{ exists []. rewrite app_nil_r. split; reflexivity. }
    destruct (dict_get kind_text result) as [label|e]; cbn [result_bind].
    2:{ exists []. rewrite app_nil_r. split; reflexivity. }
    cbn [map write_to].
    set (text := (label ++ spaces (width - String.length label) ++ f ++ newline)%string).
    destruct (IH (out ++ [text])) as (lines & E1 & E2).
    exists (text :: lines).
    replace (out ++ text :: lines) with ((out ++ [text]) ++ lines)
      by (rewrite <- app_assoc; reflexivity).
    split; [exact E1 | exact E2].
Qed.

(** X13: the file given to [diff] receives exactly the lines written to
    the standard output, and giving a file changes neither those lines nor
    the outcome of [diff]. *)
Theorem diff_file_gets_the_lines_of_stdout (fsys : node) (d1 d2 : string)
  (bufsize : Z) (kind_text : list (Z * string)) :
  exists lines,
    snd (diff fsys d1 d2 bufsize None kind_text (Some []))
    = [Some lines; None]
    /\ snd (diff fsys d1 d2 bufsize (Some []) kind_text (Some []))
       = [Some lines; Some lines]
    /\ fst (diff fsys d1 d2 bufsize (Some []) kind_text (Some []))
       = fst (diff fsys d1 d2 bufsize None kind_text (Some [])).
Proof.
  unfold diff. cbv zeta.
  destruct (tree fsys d2 true) as [names|e].
  2:{ exists []. split_all; reflexivity. }
  destruct (diff_loop_two_sinks fsys d1 d2 bufsize kind_text names [])
    as (lines & E1 & E2).
  exists lines. cbn [app] in E1, E2.
  split; [|split].
  - exact (f_equal snd E1).
  - exact (f_equal snd E2).
  - exact (f_equal fst E2).
Qed.


(** ** [tree] *)

Lemma append_assoc_s (a b c : string) : ((a ++ b) ++ c = a ++ (b ++ c))%string.
Proof. induction a as [|x a IH]; cbn; [reflexivity | rewrite IH; reflexivity]. Qed.

Lemma substring_whole (s : string) : substring 0 (String.length s) s = s.
Proof. induction s as [|x s IH]; cbn; [reflexivity | rewrite IH; reflexivity]. Qed.

Lemma str_from_0 (r : string) : str_from r 0 = r.
Proof. unfold str_from. rewrite Nat.sub_0_r. apply substring_whole. Qed.

Lemma str_from_app (a r : string) (k : nat) :
  str_from (a ++ r) (String.length a + k) = str_from r k.
Proof.
  unfold str_from. induction a as [|x a IH]; [reflexivity|].
  cbn [String.append String.length Nat.add Nat.sub substring]. exact IH.
Qed.

Lemma endswith_slash_cons (c : ascii) (s : string) :
  endswith_slash (String c s)
  = match s with
    | EmptyString => Ascii.eqb c "/"
    | String _ _ => endswith_slash s
    end.
Proof. destruct s; reflexivity. Qed.

Lemma endswith_slash_app (a b : string) :
  b <> EmptyString -> endswith_slash (a ++ b) = endswith_slash b.
Proof.
  intros Hb. induction a as [|x a IH]; [reflexivity|].
  cbn [String.append]. rewrite endswith_slash_cons.
  destruct (a ++ b)%string eqn:E; [|exact IH].
  destruct a; cbn in E; [contradiction | discriminate].
Qed.

Lemma no_slash_endswith (s : string) :
  contains_slash s = false -> endswith_slash s = false.
Proof.
  induction s as [|c s IH]; [reflexivity|].
  cbn [contains_slash]. intros H. apply orb_false_iff in H. destruct H as [Hc Hs].
  rewrite endswith_slash_cons. destruct s; [exact Hc | apply IH; exact Hs].
Qed.

Lemma plain_name_facts (s : string) :
  plain_name s = true ->
  s <> EmptyString /\ startswith_slash s = false /\ endswith_slash s = false.
Proof.
  unfold plain_name. intros H. apply andb_prop in H. destruct H as [H1 H2].
  apply negb_true_iff in H1, H2. apply String.eqb_neq in H1.
  split; [exact H1|]. split; [|apply no_slash_endswith; exact H2].
  destruct s as [|c s]; [reflexivity|]. cbn in H2 |- *.
  apply orb_false_iff in H2. tauto.
Qed.

Lemma join_after_name (a b : string) :
  a <> EmptyString -> endswith_slash a = false -> startswith_slash b = false ->
  os_path_join a b = (a ++ "/" ++ b)%string.
Proof.
  intros Ha He Hb. unfold os_path_join. rewrite Hb, He.
  destruct (String.eqb_spec a ""); [contradiction | reflexivity].
Qed.

Lemma join_after_slash (a b : string) :
  endswith_slash a = true -> startswith_slash b = false ->
  os_path_join a b = (a ++ b)%string.
Proof.
  intros He Hb. unfold os_path_join. rewrite Hb, He, orb_true_r. reflexivity.
Qed.

Lemma tree_loop_app (base : nat) (w1 w2 : list (string * list string * list string)) :
  base <> 0%nat ->
  tree_loop true base (w1 ++ w2)
  = tree_loop true base w1 ++ tree_loop true base w2.
Proof.
  intros Hb. induction w1 as [|[[root dirs] files] tl IH]; [reflexivity|].
  cbn [app tree_loop andb].
  destruct (Nat.eqb_spec base 0); [contradiction|].
  rewrite IH, app_assoc. reflexivity.
Qed.

Lemma node_nested_ind (P : node -> Prop) :
  (forall data, P (Reg data)) ->
  (forall size es, Forall (fun e => P (snd e)) es -> P (Folder size es)) ->
  forall n, P n.
Proof.
  intros HR HF. fix IH 1. intros [data|size es]; [apply HR|].
  apply HF. induction es as [|[name child] tl IHes]; constructor.
  - apply IH.
  - exact IHes.
Qed.

Lemma well_named_entries (size : Z) (es : list (string * node)) :
  well_named (Folder size es) = true ->
  Forall (fun e => plain_name (fst e) = true /\ well_named (snd e) = true) es.
Proof.
  cbn [well_named]. induction es as [|[name child] tl IH]; intros H;
    constructor.
  - apply andb_prop in H. destruct H as [H _].
    apply andb_prop in H. exact H.
  - apply IH. apply andb_prop in H. destruct H as [_ H]. exact H.
Qed.

Lemma filenames_plain (es : list (string * node)) (f : string) :
  Forall (fun e => plain_name (fst e) = true /\ well_named (snd e) = true) es ->
  In f (filenames es) -> plain_name f = true.
Proof.
  intros Hes Hin. unfold filenames in Hin. apply in_map_iff in Hin.
  destruct Hin as ([name child] & <- & Hin). apply filter_In in Hin.
  destruct Hin as [Hin _]. rewrite Forall_forall in Hes.
  apply (Hes _ Hin).
Qed.

Section TreeBelow.

(** [T] is the path of the top directory with its final slash; [base] is
    the number of characters [tree] cuts off. *)
Variable T : string.
Variable base : nat.
Hypothesis base_pos : base <> 0%nat.

Lemma walk_below :
  forall (n : node) (d : string),
  well_named n = true -> d <> EmptyString -> endswith_slash d = false ->
  tree_loop true base (walk_node (T ++ d) n)
  = map (fun r => str_from (T ++ r) base) (rel_files (d ++ "/") n).
Proof.
  induction n as [data|size es IH] using node_nested_ind; intros d Hw Hd He;
    [reflexivity|].
  pose proof (well_named_entries size es Hw) as Hes.
  assert (Hroot : (T ++ d)%string <> EmptyString).
  { destruct T; cbn; [exact Hd | discriminate]. }
  assert (Hrs : endswith_slash (T ++ d) = false)
    by (rewrite endswith_slash_app by exact Hd; exact He).
  cbn [walk_node rel_files tree_loop andb].
  destruct (Nat.eqb_spec base 0); [contradiction|].
  rewrite map_app, map_map. f_equal.
  - apply map_ext_in. intros f Hf.
    destruct (plain_name_facts f (filenames_plain es f Hes Hf)) as (_ & Hf1 & _).
    rewrite join_after_name by assumption.
    rewrite !append_assoc_s. reflexivity.
  - clear Hw. induction es as [|[name child] tl IHtl]; [reflexivity|].
    inversion IH as [|x l IHchild IHrest]; subst.
    inversion Hes as [|x l [Hname Hchild] Hes']; subst.
    cbn [fst snd] in *. specialize (IHtl IHrest Hes').
    destruct child as [data|size' es']; [exact IHtl|].
    rewrite tree_loop_app by exact base_pos. rewrite map_app. f_equal;
      [|exact IHtl].
    destruct (plain_name_facts name Hname) as (Hn0 & Hn1 & Hn2).
    rewrite join_after_name by assumption.
    rewrite append_assoc_s.
    rewrite (IHchild (d ++ "/" ++ name)%string Hchild).
    + rewrite !append_assoc_s. reflexivity.
    + destruct d; cbn; discriminate.
    + rewrite endswith_slash_app by discriminate.
      change ("/" ++ name)%string with (String "/" name).
      rewrite endswith_slash_cons. destruct name; [contradiction | exact Hn2].
Qed.

End TreeBelow.

(** The tree below the top directory, whose own files and subdirectories
    are joined to [top] itself. *)
Lemma walk_top (top T : string) (size : Z) (es : list (string * node)) :
  well_named (Folder size es) = true ->
  (forall x, startswith_slash x = false -> os_path_join top x = (T ++ x)%string) ->
  tree_loop true 0 (walk_node top (Folder size es))
  = map (fun r => str_from (T ++ r) (String.length top + 1))
      (rel_files "" (Folder size es)).
Proof.
  intros Hw HJ.
  pose proof (well_named_entries size es Hw) as Hes.
  assert (Hb : (String.length top + 1)%nat <> 0%nat) by lia.
  cbn [walk_node rel_files tree_loop andb Nat.eqb].
  rewrite map_app, map_map. f_equal.
  - apply map_ext_in. intros f Hf.
    destruct (plain_name_facts f (filenames_plain es f Hes Hf)) as (_ & Hf1 & _).
    rewrite HJ by exact Hf1. reflexivity.
  - clear Hw. induction es as [|[name child] tl IHtl]; [reflexivity|].
    inversion Hes as [|x l [Hname Hchild] Hes']; subst.
    cbn [fst snd] in *. specialize (IHtl Hes').
    destruct child as [data|size' es']; [exact IHtl|].
    rewrite tree_loop_app by exact Hb. rewrite map_app. f_equal; [|exact IHtl].
    destruct (plain_name_facts name Hname) as (Hn0 & Hn1 & Hn2).
    rewrite HJ by exact Hn1.
    apply walk_below; assumption.
Qed.

Lemma lookup_nonempty (fsys : node) (top : string) (n : node) :
  lookup fsys top = Found n -> top <> EmptyString.
Proof.
  unfold lookup. intros H ->. cbn in H. discriminate.
Qed.

(** X15: for a directory whose entries have plain names (not empty, no
    slash), [tree] yields exactly the paths of the regular files below it,
    relative to it, each once, the files of a directory before those of
    its subdirectories, when the path given does not end in a slash.  When
    it ends in a slash, every path yielded lacks its first character. *)
Theorem tree_yields_relative_paths (fsys : node) (top : string) (n : node) :
  lookup fsys top = Found n ->
  well_named n = true ->
  (endswith_slash top = false -> tree fsys top true = Ok (rel_files "" n))
  /\ (endswith_slash top = true ->
      tree fsys top true = Ok (map (fun r => str_from r 1) (rel_files "" n))).
Proof.
  intros Hl Hw. pose proof (lookup_nonempty fsys top n Hl) as Htop.
  unfold tree, os_walk. rewrite Hl. cbn [result_bind].
  destruct n as [data|size es]; [split; reflexivity|].
  split; intros He; f_equal.
  - rewrite (walk_top top (top ++ "/") size es Hw).
    + rewrite <- (map_id (rel_files "" (Folder size es))) at 2.
      apply map_ext. intros r.
      replace (String.length top + 1)%nat
        with (String.length (top ++ "/") + 0)%nat
        by (rewrite length_append_s; cbn; lia).
      rewrite str_from_app. apply str_from_0.
    + intros x Hx. rewrite join_after_name by assumption.
      rewrite append_assoc_s. reflexivity.
  - rewrite (walk_top top top size es Hw).
    + apply map_ext. intros r. apply str_from_app.
    + intros x Hx. apply join_after_slash; assumption.
Qed.

(** ** Directory records written little-endian are read back *)

Lemma len_flat_map_slots (children : list Z) :
  len (flat_map child_slot_bytes children) = 12 * Z.of_nat (length children).
Proof.
  induction children as [|c tl IH]; [reflexivity|].
  cbn [flat_map length]. rewrite len_app, IH.
  unfold child_slot_bytes. rewrite len_app, !len_le_bytes. lia.
Qed.

(** The offsets read off the child slots are those written into them. *)
Lemma child_offsets_of_slots (children : list Z) :
  forall (a post : list byte),
  Forall (fun c => 0 <= c < 2 ^ 64) children ->
  child_offsets (a ++ flat_map child_slot_bytes children ++ post) (len a)
    (length children)
  = children.
Proof.
  induction children as [|c tl IH]; intros a post Hc; [reflexivity|].
  inversion Hc as [|x l Hx Hrest]; subst.
  cbn [flat_map length child_offsets]. f_equal.
  - unfold u64_at.
    change (child_slot_bytes c) with (le_bytes 4 0 ++ le_bytes 8 c).
    replace (a ++ ((le_bytes 4 0 ++ le_bytes 8 c) ++ flat_map child_slot_bytes tl)
               ++ post)
      with ((a ++ le_bytes 4 0) ++ le_bytes 8 c
              ++ (flat_map child_slot_bytes tl ++ post))
      by (rewrite <- !app_assoc; reflexivity).
    rewrite slice_segment by (rewrite ?len_app, ?len_le_bytes; lia).
    apply le_uint_le_bytes. exact Hx.
  - replace (a ++ (child_slot_bytes c ++ flat_map child_slot_bytes tl) ++ post)
      with ((a ++ child_slot_bytes c) ++ flat_map child_slot_bytes tl ++ post)
      by (rewrite <- !app_assoc; reflexivity).
    replace (len a + 12) with (len (a ++ child_slot_bytes c))
      by (unfold child_slot_bytes; rewrite !len_app, !len_le_bytes; lia).
    apply IH. exact Hrest.
Qed.

Lemma dir_record_layout (pre post name : list byte) (ns : Z) (children : list Z) :
  let data := pre ++ dir_record_bytes tag_PDIR ns name children ++ post in
  let p := len pre in
  0 <= ns < 2 ^ 31 -> Z.of_nat (length children) < 2 ^ 32 ->
  Forall (fun c => 0 <= c < 2 ^ 64) children ->
  tag_at data p = tag_PDIR
  /\ i32_at data (p + 8) = ns
  /\ u32_at data (p + 12) = Z.of_nat (length children)
  /\ slice data (p + 48) (len name) = name
  /\ child_offsets data (p + 48 + len name) (length children) = children
  /\ len data = p + 48 + len name + 12 * Z.of_nat (length children) + len post.
Proof.
  intros data p Hs Hn Hc.
  assert (Hz : len (zeros 32) = 32) by reflexivity.
  assert (Ht : len tag_PDIR = 4) by reflexivity.
  set (hd := le_bytes 4 (8 + Z.of_nat (length
               (le_bytes 4 ns ++ le_bytes 4 (Z.of_nat (length children))
                ++ zeros 32 ++ name ++ flat_map child_slot_bytes children)))).
  assert (Hh : len hd = 4) by apply len_le_bytes.
  assert (E : data = pre ++ hd ++ tag_PDIR ++ le_bytes 4 ns
                       ++ le_bytes 4 (Z.of_nat (length children))
                       ++ zeros 32 ++ name
                       ++ flat_map child_slot_bytes children ++ post).
  { unfold data, dir_record_bytes, entry_header_bytes. cbv zeta. fold hd.
    rewrite <- !app_assoc. reflexivity. }
  split; [|split; [|split; [|split; [|split]]]].
  - unfold tag_at. rewrite E. rewrite (app_assoc pre).
    rewrite slice_segment by (rewrite ?len_app; fold p; lia). reflexivity.
  - unfold i32_at, le_int32. rewrite E.
    rewrite (app_assoc pre), (app_assoc (pre ++ _)).
    rewrite slice_segment by (rewrite ?len_app, ?len_le_bytes; fold p; lia).
    rewrite le_uint_le_bytes by (change (256 ^ Z.of_nat 4) with (2 ^ 32); lia).
    rewrite ltb_true by lia. reflexivity.
  - unfold u32_at. rewrite E.
    rewrite (app_assoc pre), (app_assoc (pre ++ _)), (app_assoc ((pre ++ _) ++ _)).
    rewrite slice_segment by (rewrite ?len_app, ?len_le_bytes; fold p; lia).
    apply le_uint_le_bytes. change (256 ^ Z.of_nat 4) with (2 ^ 32). lia.
  - rewrite E.
    rewrite (app_assoc pre), (app_assoc (pre ++ _)), (app_assoc ((pre ++ _) ++ _)),
      (app_assoc (((pre ++ _) ++ _) ++ _)),
      (app_assoc ((((pre ++ _) ++ _) ++ _) ++ _)).
    apply slice_segment; [|reflexivity].
    rewrite !len_app, !len_le_bytes. fold p. lia.
  - rewrite E.
    rewrite (app_assoc pre), (app_assoc (pre ++ _)), (app_assoc ((pre ++ _) ++ _)),
      (app_assoc (((pre ++ _) ++ _) ++ _)),
      (app_assoc ((((pre ++ _) ++ _) ++ _) ++ _)),
      (app_assoc (((((pre ++ _) ++ _) ++ _) ++ _) ++ _)).
    match goal with
    | |- child_offsets (?a ++ _) _ _ = _ =>
        replace (p + 48 + len name) with (len a)
          by (rewrite !len_app, !len_le_bytes; fold p; lia)
    end.
    apply child_offsets_of_slots. exact Hc.
  - rewrite E. rewrite !len_app, !len_le_bytes, len_flat_map_slots. fold p. lia.
Qed.

Section DirectoryRoundTrip.

Variable host : byteorder.
Variable max_offset : Z.

Lemma resolve_dir_record (pre post name : list byte) (ns : Z)
  (children : list Z) (s : pystr) (q : nat) :
  let data := pre ++ dir_record_bytes tag_PDIR ns name children ++ post in
  let p := len pre in
  let stop := p + 48 + len name + 12 * Z.of_nat (length children) in
  0 <= ns < 2 ^ 31 -> len name = 2 * ns ->
  Z.of_nat (length children) < 2 ^ 32 ->
  Forall (seekable max_offset) children ->
  seekable max_offset stop ->
  _decode_str host name = Ok s ->
  ChildPointer_read host max_offset (mkChildPointer p) (mkfile data q false)
  = (Ok (Some (DirectoryEntry (rstrip_nul s) (map mkChildPointer children))),
     mkfile data (Z.to_nat stop) false).
Proof.
  intros data p stop Hns Hname Hn Hc [He1 He2] Hd.
  assert (Hp : 0 <= p) by (unfold p, len; lia).
  assert (Hnl : 0 <= len name) by (unfold len; lia).
  assert (Hol : 0 <= len post) by (unfold len; lia).
  assert (Hc64 : Forall (fun c => 0 <= c < 2 ^ 64) children).
  { eapply Forall_impl; [|exact Hc]. intros c [Hc1 Hc2]. lia. }
  destruct (dir_record_layout pre post name ns children Hns Hn Hc64)
    as (E1 & E2 & E3 & E4 & E5 & E6).
  fold data p in E1, E2, E3, E4, E5, E6.
  pose proof (resolve_PDIR host max_offset data q p s) as R.
  cbv zeta in R. rewrite E2, E3, <- Hname, E4, Nat2Z.id, E5 in R.
  rewrite R; try assumption; try (unfold stop, seekable in *; lia).
  reflexivity.
Qed.

(** X16: a [PDIR] record written anywhere in a file, with its name in
    UTF-16 and one slot per child, is read back: resolving a pointer to it
    gives the decoded name and one pointer per child, holding the offsets
    written, in the order written, provided the reader can seek to each of
    them; the reader is left behind the last slot. *)
Theorem dir_record_round_trip (pre post name : list byte) (ns : Z)
  (children : list Z) (s : pystr) (q : nat) :
  let data := pre ++ dir_record_bytes tag_PDIR ns name children ++ post in
  let p := len pre in
  let stop := p + 48 + len name + 12 * Z.of_nat (length children) in
  0 <= ns < 2 ^ 31 -> len name = 2 * ns ->
  Z.of_nat (length children) < 2 ^ 32 ->
  Forall (seekable max_offset) children ->
  seekable max_offset stop ->
  _decode_str host name = Ok s ->
  ChildPointer_read host max_offset (mkChildPointer p) (mkfile data q false)
  = (Ok (Some (DirectoryEntry (rstrip_nul s) (map mkChildPointer children))),
     mkfile data (Z.to_nat stop) false).
Proof.
  intros data p stop. apply resolve_dir_record.
Qed.

(** X17: opening a file made of a header, any bytes, and a [PDIR] record
    at the root offset the header gives returns an archive whose header
    holds the version, identifier and root offset written and whose root
    is the directory written, with its children still unresolved. *)
Theorem open_written_archive (fsys : node) (filename : string)
  (version : Z) (ident mid post name : list byte) (ns : Z)
  (children : list Z) (s : pystr) :
  let root := 28 + len mid in
  let data := header_bytes version ident root
                ++ mid ++ dir_record_bytes tag_PDIR ns name children ++ post in
  let stop := root + 48 + len name + 12 * Z.of_nat (length children) in
  lookup fsys filename = Found (Reg data) ->
  0 <= version < 2 ^ 32 -> len ident = 4 ->
  0 <= ns < 2 ^ 31 -> len name = 2 * ns ->
  Z.of_nat (length children) < 2 ^ 32 ->
  Forall (seekable max_offset) children ->
  seekable max_offset stop ->
  _decode_str host name = Ok s ->
  File_init host max_offset fsys filename
  = (Ok (mkFile (mkFileHeader version ident root)
           (Some (DirectoryEntry (rstrip_nul s) (map mkChildPointer children)))),
     Some (mkfile data (Z.to_nat stop) false)).
Proof.
  intros root data stop Hl Hv Hi Hns Hname Hn Hc Hs Hd.
  assert (Hml : 0 <= len mid) by (unfold len; lia).
  assert (Hnl : 0 <= len name) by (unfold len; lia).
  assert (Hroot : 0 <= root < 2 ^ 64) by (destruct Hs; unfold stop, root in *; lia).
  assert (Hpre : len (header_bytes version ident root ++ mid) = root).
  { unfold header_bytes. rewrite !len_app, !len_le_bytes. unfold root. lia. }
  destruct (header_layout version root ident
              (mid ++ dir_record_bytes tag_PDIR ns name children ++ post)
              Hv Hroot Hi) as (E1 & E2 & E3 & E4).
  fold data in E1, E2, E3, E4.
  assert (Ho : open_rb fsys filename = Ok (mkfile data 0 false))
    by (unfold open_rb; rewrite Hl; reflexivity).
  rewrite File_init_unfold, Ho.
  assert (E : File_init_body host max_offset (mkfile data 0 false)
              = (Ok (mkFile (mkFileHeader version ident root)
                       (Some (DirectoryEntry (rstrip_nul s)
                                (map mkChildPointer children)))),
                 mkfile data (Z.to_nat stop) false)).
  { unfold File_init_body. unfold bind at 1.
    rewrite header_read_full by exact E4. cbv beta iota.
    rewrite E1, E2, E3.
    unfold bind at 1. unfold File_read_fs. cbn [rootoffs].
    pose proof (resolve_dir_record (header_bytes version ident root ++ mid)
                  post name ns children s 28%nat) as R.
    cbv zeta in R. rewrite Hpre in R. rewrite <- app_assoc in R.
    unfold ChildPointer_read in R. cbn [cp_where] in R.
    fold data in R. rewrite R by assumption. reflexivity. }
  rewrite E. reflexivity.
Qed.

End DirectoryRoundTrip.

(** ** The further properties at concrete archives and directories *)

Lemma truncated_record_header_raises_witness :
  fst (ChildPointer_read Little off_max (mkChildPointer 230)
         (mkfile archive_xy 0 false))
  = Raise StructError.
Proof.
  apply (truncated_record_header_raises Little off_max archive_xy 0%nat 230);
    record_facts.
Defined.

Lemma negative_name_length_raises_witness :
  fst (ChildPointer_read Little off_max (mkChildPointer 0)
         (mkfile record_negative_name 0 false))
  = Raise ValueError.
Proof.
  apply (negative_name_length_raises Little off_max record_negative_name 0%nat 0);
    [record_facts | by_computation | by_computation
    | left; by_computation | by_computation].
Defined.

Lemma extract_negative_size_witness :
  fst (File_extract off_max (mkFile (mkFileHeader 1 (ascii_bytes "GGPK") 28) None)
         (FileEntry [121] (228, -1)) (mkfile archive_xy 0 false))
  = Ok (skipn (Z.to_nat 228) archive_xy)
  /\ fst (File_extract off_max (mkFile (mkFileHeader 1 (ascii_bytes "GGPK") 28) None)
            (FileEntry [] (44, -44)) (mkfile record_negative_length 0 false))
     = Raise ValueError.
Proof.
  split.
  - apply (proj1 (extract_negative_size off_max
                    (mkFile (mkFileHeader 1 (ascii_bytes "GGPK") 28) None)
                    archive_xy 0%nat [121] 228 (-1) ltac:(record_facts))).
    reflexivity.
  - apply (proj2 (extract_negative_size off_max
                    (mkFile (mkFileHeader 1 (ascii_bytes "GGPK") 28) None)
                    record_negative_length 0%nat [] 44 (-44) ltac:(record_facts))).
    split; by_computation.
Defined.

Lemma extract_oversized_raises_OverflowError_witness :
  File_extract off_max (mkFile (mkFileHeader 1 (ascii_bytes "GGPK") 28) None)
    (FileEntry [121] (228, 2 ^ 63 - 33)) (mkfile archive_xy 0 false)
  = (Raise OverflowError, mkfile archive_xy 228 false)
  /\ File_extract off_max (mkFile (mkFileHeader 1 (ascii_bytes "GGPK") 28) None)
       (FileEntry [121] (228, - 2 ^ 63 - 1)) (mkfile archive_xy 0 false)
     = (Raise OverflowError, mkfile archive_xy 228 false).
Proof.
  split.
  - apply (extract_oversized_raises_OverflowError off_max
             (mkFile (mkFileHeader 1 (ascii_bytes "GGPK") 28) None)
             archive_xy 0%nat [121] 228 (2 ^ 63 - 33) ltac:(record_facts)).
    right. by_computation.
  - apply (extract_oversized_raises_OverflowError off_max
             (mkFile (mkFileHeader 1 (ascii_bytes "GGPK") 28) None)
             archive_xy 0%nat [121] 228 (- 2 ^ 63 - 1) ltac:(record_facts)).
    left. by_computation.
Defined.

Lemma unseekable_child_offset_fails_directory_witness :
  fst (ChildPointer_read Little off_max (mkChildPointer 0)
         (mkfile record_bad_child 0 false))
  = Raise ValueError.
Proof.
  apply (unseekable_child_offset_fails_directory Little off_max record_bad_child
           0%nat 0 [] 1%nat).
  - record_facts.
  - by_computation.
  - by_computation.
  - by_computation.
  - by_computation.
  - by_computation.
  - record_facts.
  - offsets_facts.
  - intros [_ H]. vm_compute in H. discriminate H.
Defined.

Lemma iteration_yields_each_child_in_order_witness :
  length [Some (FileEntry [120] (162, 2)); None; Some (FileEntry [121] (228, 3))]
  = length [mkChildPointer 114; mkChildPointer 164; mkChildPointer 180].
Proof.
  apply (proj2 (iteration_yields_each_child_in_order Little off_max []
                  [mkChildPointer 114; mkChildPointer 164; mkChildPointer 180]
                  (mkfile archive_xy 0 false)
                  [Some (FileEntry [120] (162, 2)); None;
                   Some (FileEntry [121] (228, 3))])).
  by_computation.
Defined.

Lemma entry_names_have_no_trailing_nul_witness :
  last (entry_name (FileEntry [120] (162, 2))) 1 <> 0.
Proof.
  apply (entry_names_have_no_trailing_nul Little off_max (mkChildPointer 114)
           (mkfile archive_xy 0 false)).
  by_computation.
Defined.

Lemma header_round_trip_witness :
  FileHeader_read (mkfile (header_bytes 1 (ascii_bytes "GGPK") 28 ++ [x2a]) 0 false)
  = (Ok (mkFileHeader 1 (ascii_bytes "GGPK") 28),
     mkfile (header_bytes 1 (ascii_bytes "GGPK") 28 ++ [x2a]) 28 false).
Proof.
  apply (header_round_trip 1 28 (ascii_bytes "GGPK") [x2a]);
    [split; by_computation | split; by_computation | by_computation].
Defined.

Lemma file_record_round_trip_witness :
  let name := utf16le "x" ++ zeros 2 in
  let payload := ascii_bytes "hi" in
  let data := zeros 3 ++ file_record_bytes (44 + len name + len payload) 2 name payload
                ++ [x2a] in
  let e := FileEntry (rstrip_nul [120; 0]) (len (zeros 3) + 44 + len name, len payload) in
  let fd := mkfile data (Z.to_nat (len (zeros 3) + 44 + len name)) false in
  ChildPointer_read Little off_max (mkChildPointer (len (zeros 3)))
    (mkfile data 0 false) = (Ok (Some e), fd)
  /\ fst (File_extract off_max (mkFile (mkFileHeader 1 [] 0) None) e fd)
     = Ok payload.
Proof.
  apply (file_record_round_trip Little off_max (mkFile (mkFileHeader 1 [] 0) None)
           (zeros 3) [x2a] (utf16le "x" ++ zeros 2) (ascii_bytes "hi") 2
           [120; 0] 0%nat);
    [split; by_computation | by_computation | by_computation
    | record_facts | by_computation].
Defined.

Lemma dir_record_round_trip_witness :
  ChildPointer_read Little off_max (mkChildPointer (len (zeros 5)))
    (mkfile (zeros 5 ++ dir_record_bytes tag_PDIR 1 (zeros 2) [7; 9] ++ [x2a]) 0 false)
  = (Ok (Some (DirectoryEntry (rstrip_nul [0]) (map mkChildPointer [7; 9]))),
     mkfile (zeros 5 ++ dir_record_bytes tag_PDIR 1 (zeros 2) [7; 9] ++ [x2a])
       (Z.to_nat (len (zeros 5) + 48 + len (zeros 2) + 12 * Z.of_nat (length [7; 9])))
       false).
Proof.
  apply (dir_record_round_trip Little off_max (zeros 5) [x2a] (zeros 2) 1 [7; 9]
           [0] 0%nat);
    [split; by_computation | by_computation | by_computation
    | offsets_facts | record_facts | by_computation].
Defined.

Lemma open_written_archive_witness :
  File_init Little off_max (fs_of_archive "a.ggpk" archive_xy) "a.ggpk"
  = (Ok (mkFile (mkFileHeader 1 (ascii_bytes "GGPK") (28 + len []))
           (Some (DirectoryEntry (rstrip_nul [0])
                    (map mkChildPointer [114; 164; 180])))),
     Some (mkfile
             (header_bytes 1 (ascii_bytes "GGPK") (28 + len [])
                ++ [] ++ dir_record_bytes tag_PDIR 1 (zeros 2) [114; 164; 180]
                ++ skipn 114 archive_xy)
             (Z.to_nat (28 + len [] + 48 + len (zeros 2)
                        + 12 * Z.of_nat (length [114; 164; 180])))
             false)).
Proof.
  apply (open_written_archive Little off_max (fs_of_archive "a.ggpk" archive_xy)
           "a.ggpk" 1 (ascii_bytes "GGPK") [] (skipn 114 archive_xy) (zeros 2) 1
           [114; 164; 180] [0]);
    [by_computation | split; by_computation | by_computation
    | split; by_computation | by_computation | by_computation
    | offsets_facts | record_facts | by_computation].
Defined.

Lemma compare_decides_equal_content_witness :
  compare fs_old_new "old/a" "new/a" 0x3FFF = Ok Same
  /\ compare fs_old_new "old/b" "new/b" 4 = Ok Modified.
Proof.
  split.
  - apply (proj1 (compare_decides_equal_content fs_old_new "old/a" "new/a"
                    (ascii_bytes "same") (ascii_bytes "same") 0x3FFF
                    eq_refl eq_refl
                    (or_introl (conj eq_refl eq_refl)))).
    reflexivity.
  - apply (proj2 (compare_decides_equal_content fs_old_new "old/b" "new/b"
                    (ascii_bytes "before") (ascii_bytes "after!") 4
                    eq_refl eq_refl
                    (or_introl (conj eq_refl eq_refl)))).
    by_computation.
Defined.

Lemma compare_degenerate_buffer_sizes_witness :
  compare fs_old_new "old/b" "new/b" 0 = Ok Same
  /\ compare fs_old_new "old/b" "new/b" (-2) = Raise ValueError
  /\ compare fs_old_new "old/b" "new/b" (- 2 ^ 63 - 1) = Raise OverflowError
  /\ compare fs_old_new "old/b" "new/b" (2 ^ 63 - 33) = Raise OverflowError.
Proof.
  destruct (compare_degenerate_buffer_sizes fs_old_new "old/b" "new/b"
              (ascii_bytes "before") (ascii_bytes "after!"))
    with (bufsize := 0) as (H0 & _ & _ & _); try reflexivity.
  destruct (compare_degenerate_buffer_sizes fs_old_new "old/b" "new/b"
              (ascii_bytes "before") (ascii_bytes "after!"))
    with (bufsize := -2) as (_ & H2 & _ & _); try reflexivity.
  destruct (compare_degenerate_buffer_sizes fs_old_new "old/b" "new/b"
              (ascii_bytes "before") (ascii_bytes "after!"))
    with (bufsize := - 2 ^ 63 - 1) as (_ & _ & H3 & _); try reflexivity.
  destruct (compare_degenerate_buffer_sizes fs_old_new "old/b" "new/b"
              (ascii_bytes "before") (ascii_bytes "after!"))
    with (bufsize := 2 ^ 63 - 33) as (_ & _ & _ & H4); try reflexivity.
  split; [apply H0; reflexivity|].
  split; [apply H2; split; by_computation|].
  split; [apply H3; by_computation | apply H4; by_computation].
Defined.

Lemma summary_lines_are_aligned_witness :
  (forall v, In v (map snd DefaultText) ->
             (String.length v < kind_width DefaultText)%nat)
  /\ (exists v, In v (map snd DefaultText)
                /\ kind_width DefaultText = (String.length v + 1)%nat)
  /\ exists (pad : nat) (files' : list sink),
       write_summary_item DefaultText New "sub/c" [Some []; None] = Ok files'
       /\ (0 < pad)%nat
       /\ String.length ("ADDED" ++ spaces pad) = kind_width DefaultText
       /\ length files' = length [Some (@nil string); None]
       /\ forall i : nat,
            nth_error files' i
            = match nth_error [Some []; None] i with
              | None => None
              | Some None => Some None
              | Some (Some written) =>
                  Some (Some (written
                              ++ [("ADDED" ++ spaces pad ++ "sub/c" ++ newline)%string]))
              end.
Proof.
  apply (summary_lines_are_aligned DefaultText New "sub/c" "ADDED" [Some []; None]).
  reflexivity.
Defined.


Lemma tree_yields_relative_paths_witness :
  tree fs_old_new "new" true
  = Ok (rel_files ""
      (Folder 4096
         [("a", Reg (ascii_bytes "same"));
          ("b", Reg (ascii_bytes "after!"));
          ("sub", Folder 4096 [("c", Reg (ascii_bytes "fresh"))])]%string)).
Proof.
  apply (proj1 (tree_yields_relative_paths fs_old_new "new" _ eq_refl eq_refl)).
  reflexivity.
Defined.

(** ** [_decode_str] *)

Lemma code_units_odd (bo : byteorder) (n : nat) :
  forall bs, (length bs <= n)%nat -> Nat.odd (length bs) = true ->
  code_units bo bs = None.
Proof.
  induction n as [|n IH]; intros bs Hn Ho.
  - destruct bs; [discriminate Ho | cbn in Hn; lia].
  - destruct bs as [|b0 [|b1 tl]]; [discriminate Ho | reflexivity |].
    cbn [code_units]. rewrite (IH tl); [reflexivity | cbn in Hn; lia |].
    cbn [length] in Ho. rewrite Nat.odd_succ, Nat.even_succ in Ho. exact Ho.
Qed.

Lemma decode_units_odd (bo : byteorder) (bs : list byte) :
  Nat.odd (length bs) = true -> decode_units bo bs = Raise UnicodeDecodeError.
Proof.
  intros Ho. unfold decode_units.
  rewrite (code_units_odd bo (length bs) bs (le_n _) Ho). reflexivity.
Qed.

(** X18: a name made of an odd number of bytes does not decode, with or
    without a byte order mark and on any host: [_decode_str] raises
    [UnicodeDecodeError]. *)
Theorem odd_length_name_does_not_decode (host : byteorder) (bs : list byte) :
  Nat.odd (length bs) = true ->
  _decode_str host bs = Raise UnicodeDecodeError.
Proof.
  intros Ho. unfold _decode_str, decode_utf16.
  assert (Htl : forall b0 b1 tl, bs = b0 :: b1 :: tl -> Nat.odd (length tl) = true).
  { intros b0 b1 tl ->. cbn [length] in Ho.
    rewrite Nat.odd_succ, Nat.even_succ in Ho. exact Ho. }
  destruct bs as [|b0 [|b1 tl]];
    [discriminate Ho | destruct b0; reflexivity |].
  specialize (Htl b0 b1 tl eq_refl).
  pose proof (decode_units_odd host (b0 :: b1 :: tl) Ho) as Hh.
  pose proof (decode_units_odd Little tl Htl) as Hl.
  pose proof (decode_units_odd Big tl Htl) as Hb.
  destruct b0; try exact Hh; destruct b1; first [exact Hh | exact Hl | exact Hb].
Qed.

Lemma odd_length_name_does_not_decode_witness :
  _decode_str Big [xff; xfe; "a"]%byte = Raise UnicodeDecodeError.
Proof.
  apply (odd_length_name_does_not_decode Big [xff; xfe; "a"]%byte).
  reflexivity.
Defined.

Lemma byte_val_of_ascii (c : ascii) :
  byte_val (byte_of_Z (Z.of_nat (nat_of_ascii c))) = Z.of_nat (nat_of_ascii c).
Proof.
  rewrite byte_val_byte_of_Z. pose proof (nat_ascii_bounded c).
  apply Z.mod_small. lia.
Qed.

Lemma code_units_utf16le (s : string) :
  code_units Little (utf16le s)
  = Some (map (fun c => Z.of_nat (nat_of_ascii c)) (list_ascii_of_string s)).
Proof.
  induction s as [|c s IH]; [reflexivity|].
  cbn [utf16le code_units list_ascii_of_string map]. rewrite IH.
  cbn [option_map unit16]. rewrite byte_val_of_ascii.
  change (byte_val x00) with 0. do 2 f_equal. lia.
Qed.

Lemma code_points_of_ascii (l : list ascii) :
  code_points (map (fun c => Z.of_nat (nat_of_ascii c)) l)
  = Some (map (fun c => Z.of_nat (nat_of_ascii c)) l).
Proof.
  induction l as [|c l IH]; [reflexivity|].
  cbn [map code_points]. pose proof (nat_ascii_bounded c).
  unfold is_high_surrogate, is_low_surrogate.
  rewrite (proj2 (Z.leb_gt 0xD800 (Z.of_nat (nat_of_ascii c)))) by lia.
  rewrite (proj2 (Z.leb_gt 0xDC00 (Z.of_nat (nat_of_ascii c)))) by lia.
  cbn [andb]. rewrite IH. reflexivity.
Qed.

(** X19: on a little-endian host, a name written as UTF-16 with one
    8-bit character per code unit and no byte order mark decodes to the
    code points of its characters. *)
Theorem ascii_name_decodes (s : string) :
  _decode_str Little (utf16le s)
  = Ok (map (fun c => Z.of_nat (nat_of_ascii c)) (list_ascii_of_string s)).
Proof.
  unfold _decode_str, decode_utf16.
  assert (E : decode_units Little (utf16le s)
              = Ok (map (fun c => Z.of_nat (nat_of_ascii c))
                      (list_ascii_of_string s))).
  { unfold decode_units. rewrite code_units_utf16le, code_points_of_ascii.
    reflexivity. }
  destruct s as [|c s]; [reflexivity|].
  cbn [utf16le] in *.
  destruct (byte_of_Z (Z.of_nat (nat_of_ascii c))); exact E.
Qed.
